(** * NeST netperf runner: command building, output parsing, result merge

    Shallow embedding of [nest/experiment/parser/netperf.py].

    - Python [str] values are [string]s: the commands and the tool's
      output are ASCII, so [\d] is one of [0]..[9] and [decode()] is
      the identity.  The values in [kwargs], the namespace name and the
      peer address are [str]; [run_time] and [start_time] are [int]s.
    - Python [dict]s are insertion-ordered association lists: assigning
      to a key that is present replaces its value in place, assigning to
      a new key appends it, and [values()] lists the values in that
      order.
    - Python [float]s produced by [float(text)] are binary64 numbers,
      kept in canonical mantissa/exponent form so that Leibniz equality
      is the [==] that dictionary keys are compared with.
    - Exceptions are an explicit result type; side effects (sleeping,
      spawning the child, taking the lock, adding to the result store)
      are recorded as a trace of events in program order. *)

From Stdlib Require Import List String Ascii ZArith Lia Bool Arith PeanoNat.
From Stdlib Require Import Permutation.
Import ListNotations.

Local Open Scope list_scope.
Local Open Scope string_scope.

Set Implicit Arguments.

(* ================================================================== *)
(** ** Exceptions *)

Inductive exn : Type :=
| KeyError (key : string)
| AttributeError          (* 'NoneType' object has no attribute 'values' *)
| IndexError              (* list index out of range *)
| ValueError
| TypeError
| OverflowError           (* a number too large for the C type it goes into *)
| OSError.                (* the child process could not be started *)

Inductive result (A : Type) : Type :=
| Ok (a : A)
| Raise (e : exn).

Arguments Ok {A} a.
Arguments Raise {A} e.

Definition rbind {A B} (r : result A) (k : A -> result B) : result B :=
  match r with
  | Ok a => k a
  | Raise e => Raise e
  end.

(** [[f(x) for x in xs]] for a fallible [f]: the first exception wins. *)
Fixpoint rmap {A B} (f : A -> result B) (xs : list A) : result (list B) :=
  match xs with
  | [] => Ok []
  | x :: xs' =>
      rbind (f x) (fun y => rbind (rmap f xs') (fun ys => Ok (y :: ys)))
  end.

(* ================================================================== *)
(** ** Insertion-ordered dictionaries *)

Module Dict.
Section Dict.
Variables K V : Type.
Variable eqb : K -> K -> bool.

Definition t := list (K * V).

(** [d[k] = v] *)
Fixpoint set (d : t) (k : K) (v : V) : t :=
  match d with
  | [] => [(k, v)]
  | (k', v') :: d' =>
      if eqb k' k then (k', v) :: d' else (k', v') :: set d' k v
  end.

(** [d[k]], [None] standing for [KeyError] *)
Fixpoint get (d : t) (k : K) : option V :=
  match d with
  | [] => None
  | (k', v') :: d' => if eqb k' k then Some v' else get d' k
  end.

(** [d.keys()], [d.values()]: in insertion order *)
Definition keys (d : t) : list K := map fst d.
Definition values (d : t) : list V := map snd d.

(** [dict(pairs)]: the pairs assigned in order into an empty dict *)
Definition of_list (kvs : list (K * V)) : t :=
  fold_left (fun d kv => set d (fst kv) (snd kv)) kvs [].
End Dict.
End Dict.

(* ================================================================== *)
(** ** Characters and strings *)

Definition is_digit (c : ascii) : bool :=
  let n := nat_of_ascii c in ((48 <=? n) && (n <=? 57))%nat.

(** [str.split()] separators: space, tab, newline, vertical tab, form
    feed, carriage return and the four ASCII separator controls. *)
Definition is_space (c : ascii) : bool :=
  let n := nat_of_ascii c in
  ((n =? 32) || ((9 <=? n) && (n <=? 13)) || ((28 <=? n) && (n <=? 31)))%nat.

Fixpoint all_digits (s : string) : bool :=
  match s with
  | EmptyString => true
  | String c s' => is_digit c && all_digits s'
  end.

(** [sep.join(parts)] *)
Fixpoint join (sep : string) (parts : list string) : string :=
  match parts with
  | [] => ""
  | [p] => p
  | p :: ps => p ++ sep ++ join sep ps
  end.

(** [s.split()]: maximal runs of non-space characters.  [cur] is the
    word being read, reversed. *)
Fixpoint rev_string (acc s : string) : string :=
  match s with
  | EmptyString => acc
  | String c s' => rev_string (String c acc) s'
  end.

Fixpoint split_from (cur : string) (s : string) : list string :=
  match s with
  | EmptyString =>
      match cur with EmptyString => [] | _ => [rev_string "" cur] end
  | String c s' =>
      if is_space c then
        match cur with
        | EmptyString => split_from "" s'
        | _ => rev_string "" cur :: split_from "" s'
        end
      else split_from (String c cur) s'
  end.

Definition split (s : string) : list string := split_from "" s.

(** ['{}'.format(n)] for an [int] *)
Definition digit_char (d : nat) : ascii := ascii_of_nat (48 + d).

Fixpoint pos_digits (fuel : nat) (n : N) (acc : string) : string :=
  match fuel with
  | O => acc
  | S fuel' =>
      let acc' := String (digit_char (N.to_nat (n mod 10))) acc in
      if (n <? 10)%N then acc' else pos_digits fuel' (n / 10) acc'
  end.

Definition str_of_N (n : N) : string :=
  pos_digits (S (N.to_nat (N.log2 n))) n "".

Definition str_of_int (z : Z) : string :=
  match z with
  | Z0 => "0"
  | Zpos p => str_of_N (Npos p)
  | Zneg p => "-" ++ str_of_N (Npos p)
  end.

(* ================================================================== *)
(** ** The fragment of [re] the parser uses

    Every pattern in the source is a sequence of literal characters and
    [\d+] groups.  [re_match] is the backtracking matcher anchored at the
    start of the text: [\d+] is greedy and gives characters back one at
    a time when the rest of the pattern fails.  It returns the matched
    text and what follows it. *)

Inductive re_item : Type :=
| Lit (c : ascii)      (* a literal character, escaped or not *)
| Digits.              (* \d+ *)

Definition regex := list re_item.

Fixpoint lits (s : string) : regex :=
  match s with
  | EmptyString => []
  | String c s' => Lit c :: lits s'
  end.

Definition consume (c : ascii) (r : option (string * string))
  : option (string * string) :=
  match r with
  | Some (m, rest) => Some (String c m, rest)
  | None => None
  end.

(** [\d*] followed by the continuation [k], longest first. *)
Fixpoint greedy_digits (k : string -> option (string * string)) (s : string)
  : option (string * string) :=
  match s with
  | String c s' =>
      if is_digit c then
        match greedy_digits k s' with
        | Some (m, rest) => Some (String c m, rest)
        | None => k s
        end
      else k s
  | EmptyString => k s
  end.

Fixpoint re_match (re : regex) : string -> option (string * string) :=
  match re with
  | [] => fun s => Some ("", s)
  | Lit c :: re' => fun s =>
      match s with
      | String c' s' =>
          if Ascii.eqb c c' then consume c' (re_match re' s') else None
      | EmptyString => None
      end
  | Digits :: re' => fun s =>
      match s with
      | String c' s' =>
          if is_digit c' then consume c' (greedy_digits (re_match re') s')
          else None
      | EmptyString => None
      end
  end.

(** [re.findall(pattern, text)]: non-overlapping matches, leftmost
    first.  [skip] counts the characters of the current match still to
    be stepped over. *)
Fixpoint findall_from (re : regex) (s : string) (skip : nat) : list string :=
  match s with
  | EmptyString =>
      match skip, re_match re s with
      | O, Some (m, _) => [m]
      | _, _ => []
      end
  | String _ s' =>
      match skip with
      | S n => findall_from re s' n
      | O =>
          match re_match re s with
          | Some (m, _) => m :: findall_from re s' (String.length m - 1)
          | None => findall_from re s' 0
          end
      end
  end.

Definition findall (re : regex) (s : string) : list string :=
  findall_from re s 0.

(** [re.sub(pattern, '', text)] for a pattern that cannot match the
    empty string (true of every non-empty pattern of the fragment):
    the text with each non-overlapping match deleted. *)
Fixpoint delete_from (re : regex) (s : string) (skip : nat) : string :=
  match s with
  | EmptyString => ""
  | String c s' =>
      match skip with
      | S n => delete_from re s' n
      | O =>
          match re_match re s with
          | Some (m, _) => delete_from re s' (String.length m - 1)
          | None => String c (delete_from re s' 0)
          end
      end
  end.

Definition sub_empty (re : regex) (s : string) : string :=
  delete_from re s 0.

(* ================================================================== *)
(** ** [float(text)]

    A non-negative binary64 number in canonical form: [Ffin m e] is
    [m * 2^e] with either [2^52 <= m < 2^53] and [-1074 <= e <= 971]
    (normal), or [m < 2^52] and [e = -1074] (subnormal or zero).  Two
    canonical numbers are [==] exactly when they are the same term. *)

Inductive pyfloat : Type :=
| Finf
| Ffin (m e : Z).

Definition pyfloat_eqb (x y : pyfloat) : bool :=
  match x, y with
  | Finf, Finf => true
  | Ffin m e, Ffin m' e' => (m =? m')%Z && (e =? e')%Z
  | _, _ => false
  end.

(** [n / d] rounded to the nearest integer, ties to even *)
Definition round_div (n d : Z) : Z :=
  let q := (n / d)%Z in
  let r := (n mod d)%Z in
  if (2 * r <? d)%Z then q
  else if (d <? 2 * r)%Z then (q + 1)%Z
  else if Z.even q then q else (q + 1)%Z.

(** [n / (d * 2^e)] rounded to the nearest integer, ties to even *)
Definition round_scaled (n d e : Z) : Z :=
  if (0 <=? e)%Z then round_div n (d * 2 ^ e) else round_div (n * 2 ^ (- e)) d.

(** [n < d * 2^e] *)
Definition lt_scaled (n d e : Z) : bool :=
  if (0 <=? e)%Z then (n <? d * 2 ^ e)%Z else (n * 2 ^ (- e) <? d)%Z.

(** The binary64 number nearest to [n / d] (ties to even), for
    [0 <= n] and [0 < d]. *)
Definition float_of_ratio (n d : Z) : pyfloat :=
  if (n =? 0)%Z then Ffin 0 (-1074)
  else
    let e1 := (Z.log2 n - Z.log2 d - 52)%Z in
    let e2 := if lt_scaled n d (e1 + 52) then (e1 - 1)%Z else e1 in
    let e := Z.max e2 (-1074) in
    let m := round_scaled n d e in
    let '(m, e) := if (m =? 2 ^ 53)%Z then (2 ^ 52, e + 1)%Z else (m, e) in
    if (971 <? e)%Z then Finf else Ffin m e.

Fixpoint digits_value (acc : Z) (s : string) : Z :=
  match s with
  | EmptyString => acc
  | String c s' =>
      digits_value (10 * acc + (Z.of_nat (nat_of_ascii c) - 48))%Z s'
  end.

(** Longest prefix of digits and the remainder *)
Fixpoint span_digits (s : string) : string * string :=
  match s with
  | String c s' =>
      if is_digit c then
        let '(ds, rest) := span_digits s' in (String c ds, rest)
      else ("", s)
  | EmptyString => ("", "")
  end.

(** [float] on the unsigned decimal literals [ddd], [ddd.], [.ddd] and
    [ddd.ddd]; the parser only ever passes the last form.  Text outside
    this grammar is reported as [ValueError]: signs, exponents,
    surrounding blanks, [inf] and [nan] are not modelled. *)
Definition float_of_string (s : string) : result pyfloat :=
  let '(ip, rest) := span_digits s in
  match rest with
  | EmptyString =>
      match ip with
      | EmptyString => Raise ValueError
      | _ => Ok (float_of_ratio (digits_value 0 ip) 1)
      end
  | String c fp =>
      if Ascii.eqb c "." && all_digits fp
         && negb ((String.length ip =? 0)%nat && (String.length fp =? 0)%nat)
      then Ok (float_of_ratio (digits_value 0 (ip ++ fp))
                              (10 ^ Z.of_nat (String.length fp)))
      else Raise ValueError
  end.

(* ================================================================== *)
(** ** Effects

    A computation yields the events it performed, in program order, and
    either a value or the exception that ended it. *)

Definition stats := Dict.t pyfloat pyfloat.

Inductive event : Type :=
| Sleep (secs : Z)                      (* time.sleep(secs) *)
| Popen (argv : list string)            (* subprocess.Popen(argv, ...) *)
| Communicate                           (* proc.communicate(): wait for exit *)
| LockAcquire (lock : nat)              (* lock.acquire() *)
| LockRelease (lock : nat)              (* lock.release() *)
| AddResult (ns_name : string) (d : stats).
                                        (* NetperfResults.add_result(ns, d) *)

Definition M (A : Type) : Type := (list event * result A)%type.

Definition ret {A} (a : A) : M A := ([], Ok a).

Definition raise {A} (e : exn) : M A := ([], Raise e).

Definition lift {A} (r : result A) : M A := ([], r).

Definition emit (e : event) : M unit := ([e], Ok tt).

Definition bind {A B} (m : M A) (k : A -> M B) : M B :=
  match m with
  | (t, Ok a) => let '(t', r) := k a in ((t ++ t')%list, r)
  | (t, Raise e) => (t, Raise e)
  end.

Notation "x <- m ;; k" := (bind m (fun x => k))
  (at level 61, m at next level, right associativity).
Notation "m ;;; k" := (bind m (fun _ => k))
  (at level 61, right associativity).

Definition trace {A} (m : M A) : list event := fst m.
Definition outcome {A} (m : M A) : result A := snd m.

(** The host: the standard output a child started with [argv] will have
    produced when it exits, or [None] when it cannot be started. *)
Definition host := list string -> option string.

(** [d[k]] on a [str]-keyed dict *)
Definition lookup (d : Dict.t string string) (k : string) : result string :=
  match Dict.get String.eqb d k with
  | Some v => Ok v
  | None => Raise (KeyError k)
  end.

(* ================================================================== *)
(** ** The module's constants *)

Definition RUNTIME : Z := 10.

(** The float literal [0.2], as ['{}'.format] prints it. *)
Definition INTERVAL : string := "0.2".

Definition TCP_OUTPUT_OPTIONS : list string :=
  [ "THROUGHPUT"; "LOCAL_CONG_CONTROL"; "REMOTE_CONG_CONTROL"; "TRANSPORT_MSS";
    "LOCAL_TRANSPORT_RETRANS"; "REMOTE_TRANSPORT_RETRANS"; "LOCAL_SOCKET_TOS";
    "REMOTE_SOCKET_TOS"; "DIRECTION"; "ELAPSED_TIME"; "PROTOCOL";
    "LOCAL_SEND_SIZE"; "LOCAL_RECV_SIZE"; "REMOTE_SEND_SIZE";
    "REMOTE_RECV_SIZE"; "LOCAL_BYTES_SENT"; "LOCAL_BYTES_RECVD";
    "REMOTE_BYTES_SENT"; "REMOTE_BYTES_RECVD" ].

Definition DEFAULT_NETPERF_OPTIONS : Dict.t string string :=
  [ ("banner",    "-P 0");
    ("ipv4",      "-4");
    ("testname",  "-t TCP_STREAM");
    ("fill_file", "-F /dev/urandom");
    ("testlen",   "-l " ++ str_of_int RUNTIME);
    ("intervel",  "-D -" ++ INTERVAL) ].

Definition NETPERF_TCP_OPTIONS : Dict.t string string :=
  [ ("cong_algo", "-K cubic");
    ("stats",     "-k THROUGHPUT") ].

Definition NETPERF_UDP_OPTIONS : Dict.t string string :=
  [ ("routing",   "-R 1");
    ("stats",     "-k THROUGHPUT") ].

(* ================================================================== *)
(** ** [run_test_commands], [run_netserver] *)

Definition run_test_commands (h : host) (cmd : string) (block : bool)
  : M (option string) :=
  let argv := split cmd in
  emit (Popen argv) ;;;
  match h argv with
  | None => raise OSError
  | Some stdout =>
      if block then emit Communicate ;;; ret (Some stdout)
      else ret None
  end.

Definition run_netserver (h : host) (ns_name : string) : M unit :=
  let cmd := "ip netns exec " ++ ns_name ++ " netserver" in
  run_test_commands h cmd false ;;; ret tt.

(* ================================================================== *)
(** ** [parse_stats] *)

(** [r'NETPERF_INTERIM_RESULT\[\d+]=\d+\.\d+'] *)
Definition throughput_pattern : regex :=
  (lits "NETPERF_INTERIM_RESULT[" ++ [Digits] ++ lits "]="
     ++ [Digits; Lit "."; Digits])%list.

(** [r'NETPERF_INTERIM_RESULT\[\d+]='] *)
Definition extract_throughput_pattern : regex :=
  (lits "NETPERF_INTERIM_RESULT[" ++ [Digits] ++ lits "]=")%list.

(** [r'NETPERF_ENDING\[\d+]=\d+\.\d+'] *)
Definition timestamp_pattern : regex :=
  (lits "NETPERF_ENDING[" ++ [Digits] ++ lits "]="
     ++ [Digits; Lit "."; Digits])%list.

(** [r'NETPERF_ENDING\[\d+]='] *)
Definition extract_interval_pattern : regex :=
  (lits "NETPERF_ENDING[" ++ [Digits] ++ lits "]=")%list.

(** [[float(re.sub(extract, '', stat)) for stat in re.findall(pat, raw)]] *)
Definition extract_floats (pat extract : regex) (raw_stats : string)
  : result (list pyfloat) :=
  rmap (fun stat => float_of_string (sub_empty extract stat))
       (findall pat raw_stats).

Definition throughputs_of (raw_stats : string) : result (list pyfloat) :=
  extract_floats throughput_pattern extract_throughput_pattern raw_stats.

Definition timestamps_of (raw_stats : string) : result (list pyfloat) :=
  extract_floats timestamp_pattern extract_interval_pattern raw_stats.

(** [for i in idxs: stats_dict[timestamps[i]] = throughputs[i]]; the
    right-hand side is evaluated before the subscript on the left. *)
Fixpoint pair_loop (idxs : list nat) (timestamps throughputs : list pyfloat)
  (stats_dict : stats) : result stats :=
  match idxs with
  | [] => Ok stats_dict
  | i :: idxs' =>
      match nth_error throughputs i with
      | None => Raise IndexError
      | Some th =>
          match nth_error timestamps i with
          | None => Raise IndexError
          | Some ts =>
              pair_loop idxs' timestamps throughputs
                        (Dict.set pyfloat_eqb stats_dict ts th)
          end
      end
  end.

(** The dict [parse_stats] builds, up to the point where it takes the lock *)
Definition stats_dict_of (raw_stats : string) : result stats :=
  rbind (throughputs_of raw_stats) (fun throughputs =>
  rbind (timestamps_of raw_stats) (fun timestamps =>
  pair_loop (seq 0 (List.length throughputs)) timestamps throughputs [])).

Definition parse_stats (raw_stats : string) (ns_name : string) (lock : nat)
  : M unit :=
  stats_dict <- lift (stats_dict_of raw_stats) ;;
  emit (LockAcquire lock) ;;;
  emit (AddResult ns_name stats_dict) ;;;
  emit (LockRelease lock).

(* ================================================================== *)
(** ** [run_netperf] *)

(** [time.sleep(secs)] for an [int]: the length is first converted to
    a signed 64-bit count of nanoseconds, which raises [OverflowError]
    beyond 9223372036 seconds on either side of zero; a negative length
    that passes the conversion is a [ValueError]. *)
Definition SLEEP_MAX : Z := 9223372036.

Definition out_of_range (secs : Z) : bool :=
  ((secs <? - SLEEP_MAX) || (SLEEP_MAX <? secs))%Z.

Definition sleep (secs : Z) : M unit :=
  if out_of_range secs then raise OverflowError
  else if (secs <? 0)%Z then raise ValueError
  else emit (Sleep secs).

(** The extension option set chosen by [options['testname']]:
    [None] is Python's [None], left in [test_options] when neither
    branch is taken. *)
Definition select_test_options (options kwargs : Dict.t string string)
  : result (option (Dict.t string string)) :=
  rbind (lookup options "testname") (fun tn =>
  if String.eqb tn "-t TCP_STREAM" then
    let test_options := NETPERF_TCP_OPTIONS in
    rbind (lookup kwargs "cong_algo") (fun algo =>
    Ok (Some (Dict.set String.eqb test_options "cong_alg" ("-K " ++ algo))))
  else
    rbind (lookup options "testname") (fun tn' =>
    if String.eqb tn' "-t UDP_STREAM" then Ok (Some NETPERF_UDP_OPTIONS)
    else Ok None)).

(** The statements of [run_netperf] up to and including the assignment
    of [cmd]. *)
Definition build_cmd (ns_name destination_ip : string) (run_time : Z)
  (kwargs : Dict.t string string) : result string :=
  let options := DEFAULT_NETPERF_OPTIONS in
  let options := Dict.set String.eqb options "testlen"
                          ("-l " ++ str_of_int run_time) in
  rbind (lookup kwargs "testname") (fun testname =>
  let options := Dict.set String.eqb options "testname" ("-t " ++ testname) in
  rbind (select_test_options options kwargs) (fun test_options =>
  let options_list := Dict.values options in
  let options_string := join " " options_list in
  rbind (match test_options with
         | None => Raise AttributeError
         | Some d => Ok (Dict.values d)
         end) (fun test_options_list =>
  let test_options_string := join " " test_options_list in
  Ok ("ip netns exec " ++ ns_name ++ " netperf " ++ options_string
        ++ " -H " ++ destination_ip ++ " -- " ++ test_options_string)))).

Definition run_netperf (h : host) (ns_name destination_ip : string)
  (start_time : Z) (lock : nat) (run_time : Z)
  (kwargs : Dict.t string string) : M unit :=
  cmd <- lift (build_cmd ns_name destination_ip run_time kwargs) ;;
  (if negb (start_time =? 0)%Z then sleep start_time else ret tt) ;;;
  raw_stats <- run_test_commands h cmd true ;;
  match raw_stats with
  | Some out => parse_stats out ns_name lock
  | None => raise TypeError
  end.

(* ================================================================== *)
(** ** Reference shapes used in the statements *)

(** The default option values with the test-duration and test-type
    fields replaced and every other field left as it is, in the order
    of the default mapping. *)
Definition base_options (run_time : Z) (testname : string) : list string :=
  map (fun kv =>
         if String.eqb (fst kv) "testlen" then "-l " ++ str_of_int run_time
         else if String.eqb (fst kv) "testname" then "-t " ++ testname
         else snd kv)
      DEFAULT_NETPERF_OPTIONS.

(** The texts a pattern of the fragment describes *)
Fixpoint matches (re : regex) (m : string) : Prop :=
  match re with
  | [] => m = ""
  | Lit c :: re' => exists m', m = String c m' /\ matches re' m'
  | Digits :: re' =>
      exists ds m', ds <> "" /\ all_digits ds = true
                    /\ m = ds ++ m' /\ matches re' m'
  end.

(** The two marker patterns and the two extraction patterns differ only
    in the marker's name. *)
Definition marker_pattern (name : string) : regex :=
  (lits name ++ Lit "[" :: Digits :: lits "]="
     ++ [Digits; Lit "."; Digits])%list.

Definition marker_prefix_pattern (name : string) : regex :=
  (lits name ++ Lit "[" :: Digits :: lits "]=")%list.

(** The text after an integer payload: it neither continues the digits
    nor starts a fractional part. *)
Definition no_fraction (rest : string) : bool :=
  match rest with
  | EmptyString => true
  | String c rest' =>
      negb (is_digit c)
      && negb (Ascii.eqb c "."
               && match rest' with
                  | String c' _ => is_digit c'
                  | EmptyString => false
                  end)
  end.

(** No match of [re] starts inside [pre] when [rest] follows it. *)
Fixpoint unmatched (re : regex) (pre rest : string) : Prop :=
  match pre with
  | EmptyString => True
  | String c pre' =>
      re_match re (String c pre' ++ rest) = None /\ unmatched re pre' rest
  end.

Fixpoint no_char (c : ascii) (s : string) : Prop :=
  match s with
  | EmptyString => True
  | String c' s' => c' <> c /\ no_char c s'
  end.

Definition pyfloat_eq_dec (x y : pyfloat) : {x = y} + {x <> y}.
Proof. decide equality; apply Z.eq_dec. Defined.

(** The float a decimal literal denotes *)
Definition float_lit (s : string) : pyfloat :=
  match float_of_string s with
  | Ok x => x
  | Raise _ => Ffin 0 (-1074)
  end.

(** Events of the merge step, and events that leave the shared world
    alone *)
Definition merge_event (e : event) : Prop :=
  match e with
  | LockAcquire _ | LockRelease _ | AddResult _ _ => True
  | _ => False
  end.

Definition quiet (e : event) : Prop :=
  match e with
  | Sleep _ | Popen _ | Communicate => True
  | _ => False
  end.

(** What the child contributes to the trace once it has been started,
    and what [parse_stats] then adds *)
Definition after_launch (h : host) (cmd ns_name : string) (lock : nat)
  : list event :=
  match h (split cmd) with
  | Some out => Communicate :: trace (parse_stats out ns_name lock)
  | None => []
  end.

(** Number of [flag] tokens in an argument vector *)
Definition count_flag (flag : string) (argv : list string) : nat :=
  count_occ string_dec argv flag.

(** The events [run_netperf] performs before the child is started *)
Definition delay_events (start_time : Z) : list event :=
  if (0 <? start_time)%Z then [Sleep start_time] else [].

(* ================================================================== *)
(** ** Concurrent runs

    Each run executes on a thread of its own; what a thread does to the
    shared world is the event trace of its [run_netperf] call.  A
    schedule picks, step by step, the thread that moves next.

    - [lock.acquire()] can only be taken while the lock is free, and
      records the holder; otherwise the thread cannot move.
    - [lock.release()] frees the lock; on a free lock it would raise,
      and the thread does not move.
    - [NetperfResults.add_result(ns, d)] is not assumed to be atomic:
      it first reads the store, and in a later step writes back the
      store computed from what it read.  Other threads may move in
      between.
    - The remaining events do not touch the shared world.

    The store and the function [add_result] computes on it live in the
    [results] module, outside this file; they are parameters. *)

Record request : Type := {
  rq_ns_name : string;
  rq_destination_ip : string;
  rq_start_time : Z;
  rq_run_time : Z;
  rq_kwargs : Dict.t string string
}.

(** What one run does, as seen by the other threads *)
Definition program (h : host) (lock : nat) (rq : request) : list event :=
  trace (run_netperf h (rq_ns_name rq) (rq_destination_ip rq)
                     (rq_start_time rq) lock (rq_run_time rq) (rq_kwargs rq)).

(** The samples a program hands to [add_result], if it gets that far *)
Fixpoint contribution (p : list event) : option (string * stats) :=
  match p with
  | [] => None
  | AddResult ns d :: _ => Some (ns, d)
  | _ :: p' => contribution p'
  end.

(** Between [acquire] and [release] *)
Definition in_merge (todo : list event) : bool :=
  match todo with
  | AddResult _ _ :: _ => true
  | LockRelease _ :: _ => true
  | _ => false
  end.

Section Interleaving.
Variable Store : Type.
Variable add_result : string -> stats -> Store -> Store.

Record thread : Type := {
  todo : list event;            (* events still to perform *)
  reading : option Store        (* input of an add_result under way *)
}.

Record world : Type := {
  holder : nat -> option nat;   (* lock -> thread holding it *)
  store : Store;
  threads : nat -> thread
}.

Definition update {A} (f : nat -> A) (i : nat) (a : A) : nat -> A :=
  fun j => if Nat.eqb j i then a else f j.

Definition idle : thread := {| todo := []; reading := None |}.

Definition init (h : host) (lock : nat) (rqs : list request) (s0 : Store)
  : world :=
  {| holder := fun _ => None;
     store := s0;
     threads := fun i =>
       nth i (map (fun rq => {| todo := program h lock rq;
                                reading := None |}) rqs) idle |}.

(** One move of thread [i]; [None] when it cannot move. *)
Definition step (w : world) (i : nat) : option world :=
  let th := threads w i in
  match todo th with
  | [] => None
  | LockAcquire l :: rest =>
      match holder w l with
      | Some _ => None
      | None =>
          Some {| holder := update (holder w) l (Some i);
                  store := store w;
                  threads := update (threads w) i
                               {| todo := rest; reading := reading th |} |}
      end
  | LockRelease l :: rest =>
      match holder w l with
      | None => None
      | Some _ =>
          Some {| holder := update (holder w) l None;
                  store := store w;
                  threads := update (threads w) i
                               {| todo := rest; reading := reading th |} |}
      end
  | AddResult ns d :: rest =>
      match reading th with
      | None =>
          Some {| holder := holder w;
                  store := store w;
                  threads := update (threads w) i
                               {| todo := todo th;
                                  reading := Some (store w) |} |}
      | Some s =>
          Some {| holder := holder w;
                  store := add_result ns d s;
                  threads := update (threads w) i
                               {| todo := rest; reading := None |} |}
      end
  | _ :: rest =>
      Some {| holder := holder w;
              store := store w;
              threads := update (threads w) i
                           {| todo := rest; reading := reading th |} |}
  end.

Fixpoint run (w : world) (schedule : list nat) : option world :=
  match schedule with
  | [] => Some w
  | i :: schedule' =>
      match step w i with
      | Some w' => run w' schedule'
      | None => None
      end
  end.

(** What run [i] has to merge *)
Definition contrib_of (h : host) (lock : nat) (rqs : list request)
  (i : nat) : option (string * stats) :=
  match nth_error rqs i with
  | Some rq => contribution (program h lock rq)
  | None => None
  end.

(** The store after the runs listed in [order] have merged one after
    the other, each in a single step. *)
Definition merge_one (h : host) (lock : nat) (rqs : list request)
  (s : Store) (i : nat) : Store :=
  match contrib_of h lock rqs i with
  | Some (ns, d) => add_result ns d s
  | None => s
  end.

Definition merged_in_order (h : host) (lock : nat) (rqs : list request)
  (s0 : Store) (order : list nat) : Store :=
  fold_left (merge_one h lock rqs) order s0.

(** Thread [i] of [w] has finished its merge. *)
Definition has_merged (h : host) (lock : nat) (rqs : list request)
  (w : world) (i : nat) : Prop :=
  contrib_of h lock rqs i <> None
  /\ contribution (todo (threads w i)) = None.

(** The merge step of a run *)
Definition crit (lock : nat) (c : option (string * stats)) : list event :=
  match c with
  | Some (ns, d) => [LockAcquire lock; AddResult ns d; LockRelease lock]
  | None => []
  end.

(** Where a thread stands, given the runs [order] that have written
    their samples so far. *)
Inductive phase (lock : nat) (w : world) (order : list nat) (i : nat)
  (c : option (string * stats)) : Prop :=
| Before (pre : list event) :
    Forall quiet pre ->
    todo (threads w i) = (pre ++ crit lock c)%list ->
    reading (threads w i) = None ->
    ~ In i order ->
    holder w lock <> Some i ->
    phase lock w order i c
| Holding (ns : string) (d : stats) :
    c = Some (ns, d) ->
    todo (threads w i) = [AddResult ns d; LockRelease lock] ->
    reading (threads w i) = None
    \/ reading (threads w i) = Some (store w) ->
    holder w lock = Some i ->
    ~ In i order ->
    phase lock w order i c
| Written (ns : string) (d : stats) :
    c = Some (ns, d) ->
    todo (threads w i) = [LockRelease lock] ->
    reading (threads w i) = None ->
    holder w lock = Some i ->
    In i order ->
    phase lock w order i c
| Finished :
    c <> None ->
    todo (threads w i) = [] ->
    reading (threads w i) = None ->
    holder w lock <> Some i ->
    In i order ->
    phase lock w order i c.

Definition invariant (h : host) (lock : nat) (rqs : list request)
  (s0 : Store) (w : world) (order : list nat) : Prop :=
  NoDup order
  /\ store w = merged_in_order h lock rqs s0 order
  /\ forall i, phase lock w order i (contrib_of h lock rqs i).
End Interleaving.

(** A store for the examples: the [add_result] calls received so far,
    in order.  Whatever the [results] module keeps is a function of
    this history. *)
Definition call_log := list (string * stats).

Definition log_call (ns_name : string) (d : stats) (s : call_log)
  : call_log :=
  (s ++ [(ns_name, d)])%list.

(** Two runs in the same namespace towards different peers; the peer
    decides what the child prints. *)
Definition example_host : host :=
  fun argv =>
    if existsb (String.eqb "10.0.0.2") argv
    then Some "NETPERF_INTERIM_RESULT[0]=9.5 NETPERF_ENDING[0]=0.2"
    else Some "NETPERF_INTERIM_RESULT[0]=7.25 NETPERF_ENDING[0]=0.4".

Definition example_requests : list request :=
  [ {| rq_ns_name := "h1"; rq_destination_ip := "10.0.0.2";
       rq_start_time := 0; rq_run_time := 10;
       rq_kwargs := [("testname", "UDP_STREAM")] |};
    {| rq_ns_name := "h1"; rq_destination_ip := "10.0.0.3";
       rq_start_time := 0; rq_run_time := 10;
       rq_kwargs := [("testname", "UDP_STREAM")] |} ].

(** Both children are started and waited for, run 0 takes the lock,
    merges and releases it, and only then run 1 does the same. *)
Definition example_schedule : list nat :=
  [0; 1; 0; 0; 1; 0; 0; 0; 1; 1; 1; 1].

(** The same two runs, each handed a lock of its own. *)
Definition unshared_locks_world : world call_log :=
  {| holder := fun _ => None;
     store := [];
     threads := fun i =>
       nth i (map (fun lr => {| todo := program example_host (fst lr) (snd lr);
                                reading := None |})
                  (combine [1; 2] example_requests))
           (idle call_log) |}.

(* ================================================================== *)
(** ** Further shapes used in the statements *)

(** A command-line word: not empty, no blank in it.  [split] hands such
    a word to the child as one argument. *)
Fixpoint no_space (s : string) : bool :=
  match s with
  | EmptyString => true
  | String c s' => negb (is_space c) && no_space s'
  end.

Definition word (s : string) : Prop := s <> "" /\ no_space s = true.

(** A non-empty run of digits *)
Definition digits (s : string) : Prop := s <> "" /\ all_digits s = true.

(** The text of a marker line with a fractional payload, and the float
    its payload [ip.fp] denotes *)
Definition marker_text (name idx ip fp : string) : string :=
  name ++ "[" ++ idx ++ "]=" ++ ip ++ "." ++ fp.

Definition decimal_value (ip fp : string) : pyfloat :=
  float_of_ratio (digits_value 0 (ip ++ fp))
                 (10 ^ Z.of_nat (String.length fp)).

(** [stat] is a marker of the family [name] and [v] the value of its
    payload. *)
Definition marker_value (name : string) (stat : string) (v : pyfloat)
  : Prop :=
  exists idx ip fp,
    digits idx /\ digits ip /\ digits fp
    /\ stat = marker_text name idx ip fp
    /\ v = decimal_value ip fp.

(** The text after a payload does not continue its digits. *)
Definition no_digit_start (rest : string) : bool :=
  match rest with
  | EmptyString => true
  | String c _ => negb (is_digit c)
  end.

(** Text in which no match of either pattern starts, whatever follows
    it *)
Definition inert (junk : string) : Prop :=
  forall rest,
    unmatched throughput_pattern junk rest
    /\ unmatched timestamp_pattern junk rest.

(** What lies between two markers: inert text that does not start with
    a digit. *)
Definition separator (sep : string) : Prop :=
  sep <> "" /\ no_digit_start sep = true /\ inert sep.

(** One interim report as the tool prints it: a throughput marker and a
    timestamp marker, each followed by a separator.  The bracketed
    indices are whatever the tool chose to print. *)
Record report : Type := {
  thr_idx : string;  thr_ip : string;  thr_fp : string;
  ts_idx : string;   ts_ip : string;   ts_fp : string
}.

Definition well_formed (r : report) : Prop :=
  (digits (thr_idx r) /\ digits (thr_ip r) /\ digits (thr_fp r))
  /\ (digits (ts_idx r) /\ digits (ts_ip r) /\ digits (ts_fp r)).

Definition report_text (sep1 sep2 : string) (r : report) : string :=
  marker_text "NETPERF_INTERIM_RESULT" (thr_idx r) (thr_ip r) (thr_fp r)
    ++ sep1
    ++ marker_text "NETPERF_ENDING" (ts_idx r) (ts_ip r) (ts_fp r)
    ++ sep2.

Fixpoint output_text (sep1 sep2 : string) (rs : list report) : string :=
  match rs with
  | [] => ""
  | r :: rs' => report_text sep1 sep2 r ++ output_text sep1 sep2 rs'
  end.

Definition thr_value (r : report) : pyfloat :=
  decimal_value (thr_ip r) (thr_fp r).

Definition ts_value (r : report) : pyfloat :=
  decimal_value (ts_ip r) (ts_fp r).

(** The lines the tool prints between the two markers of a report, and
    the line break after the second *)
Definition newline : string := String (ascii_of_nat 10) "".

Definition units_and_interval : string :=
  newline ++ "NETPERF_UNITS[0]=10^6bits/s"
    ++ newline ++ "NETPERF_INTERVAL[0]=0.200" ++ newline.

(** Run [i] has samples to merge. *)
Definition contributes (h : host) (lock : nat) (rqs : list request)
  (i : nat) : bool :=
  match contrib_of h lock rqs i with
  | Some _ => true
  | None => false
  end.

(* ================================================================== *)
(** ** Runs in which [add_result] may raise

    [NetperfResults.add_result] is defined outside this module, and
    [parse_stats] above takes the call to return.  The two definitions
    below are [parse_stats] and [run_netperf] again, statement by
    statement, with the outcome of that call left open: [added] is
    [Ok tt] when the call returns and [Raise e] when it raises [e]. *)

Definition parse_stats_with (added : result unit)
  (raw_stats : string) (ns_name : string) (lock : nat) : M unit :=
  stats_dict <- lift (stats_dict_of raw_stats) ;;
  emit (LockAcquire lock) ;;;
  (emit (AddResult ns_name stats_dict) ;;; lift added) ;;;
  emit (LockRelease lock).

Definition run_netperf_with (added : result unit)
  (h : host) (ns_name destination_ip : string)
  (start_time : Z) (lock : nat) (run_time : Z)
  (kwargs : Dict.t string string) : M unit :=
  cmd <- lift (build_cmd ns_name destination_ip run_time kwargs) ;;
  (if negb (start_time =? 0)%Z then sleep start_time else ret tt) ;;;
  raw_stats <- run_test_commands h cmd true ;;
  match raw_stats with
  | Some out => parse_stats_with added out ns_name lock
  | None => raise TypeError
  end.

(** The events the merge step leaves behind: the release is missing
    when [add_result] raised. *)
Definition merge_events (added : result unit) (ns_name : string)
  (d : stats) (lock : nat) : list event :=
  LockAcquire lock :: AddResult ns_name d
    :: match added with
       | Ok _ => [LockRelease lock]
       | Raise _ => []
       end.

(* ================================================================== *)
(** * Properties *)

(** ** Sanity checks of the library models *)

Example str_of_int_10 : str_of_int 10 = "10".
Proof. reflexivity. Qed.

Example str_of_int_neg : str_of_int (-3072) = "-3072".
Proof. reflexivity. Qed.

Example split_blanks :
  split "ip  netns exec  a " = ["ip"; "netns"; "exec"; "a"].
Proof. reflexivity. Qed.

Example float_12_5 : float_of_string "12.5" = Ok (Ffin (25 * 2 ^ 48) (-49)).
Proof. reflexivity. Qed.

Example float_trailing_zero : float_of_string "1.00" = float_of_string "1.0".
Proof. reflexivity. Qed.

Example float_rounds :
  float_of_string "0.10000000000000000001" = float_of_string "0.1".
Proof. vm_compute. reflexivity. Qed.

Example findall_greedy :
  findall throughput_pattern
    "NETPERF_INTERIM_RESULT[0]=10.5.6NETPERF_INTERIM_RESULT[12]=0010.50x"
  = ["NETPERF_INTERIM_RESULT[0]=10.5"; "NETPERF_INTERIM_RESULT[12]=0010.50"].
Proof. vm_compute. reflexivity. Qed.

Example default_options_string :
  join " " (Dict.values DEFAULT_NETPERF_OPTIONS)
  = "-P 0 -4 -t TCP_STREAM -F /dev/urandom -l 10 -D -0.2".
Proof. reflexivity. Qed.

(* ================================================================== *)
(** ** Command building *)

Section CommandBuilder.
Variables ns_name destination_ip : string.
Variable run_time : Z.
Variable kwargs : Dict.t string string.

Lemma base_options_eq testname :
  base_options run_time testname
  = ["-P 0"; "-4"; "-t " ++ testname; "-F /dev/urandom";
     "-l " ++ str_of_int run_time; "-D -0.2"].
Proof. reflexivity. Qed.

Lemma options_after_overrides testname :
  Dict.values
    (Dict.set String.eqb
       (Dict.set String.eqb DEFAULT_NETPERF_OPTIONS "testlen"
                 ("-l " ++ str_of_int run_time))
       "testname" ("-t " ++ testname))
  = base_options run_time testname.
Proof. reflexivity. Qed.

Lemma testname_is_tcp testname :
  String.eqb ("-t " ++ testname) "-t TCP_STREAM"
  = String.eqb testname "TCP_STREAM".
Proof. reflexivity. Qed.

Lemma testname_is_udp testname :
  String.eqb ("-t " ++ testname) "-t UDP_STREAM"
  = String.eqb testname "UDP_STREAM".
Proof. reflexivity. Qed.

Lemma select_tcp algo :
  Dict.get String.eqb kwargs "cong_algo" = Some algo ->
  select_test_options
    (Dict.set String.eqb
       (Dict.set String.eqb DEFAULT_NETPERF_OPTIONS "testlen"
                 ("-l " ++ str_of_int run_time))
       "testname" "-t TCP_STREAM") kwargs
  = Ok (Some [("cong_algo", "-K cubic"); ("stats", "-k THROUGHPUT");
              ("cong_alg", "-K " ++ algo)]).
Proof.
  intros H. unfold select_test_options, lookup. cbn. rewrite H. reflexivity.
Qed.

Lemma select_udp :
  select_test_options
    (Dict.set String.eqb
       (Dict.set String.eqb DEFAULT_NETPERF_OPTIONS "testlen"
                 ("-l " ++ str_of_int run_time))
       "testname" "-t UDP_STREAM") kwargs
  = Ok (Some NETPERF_UDP_OPTIONS).
Proof. reflexivity. Qed.

Lemma select_other testname :
  testname <> "TCP_STREAM" -> testname <> "UDP_STREAM" ->
  select_test_options
    (Dict.set String.eqb
       (Dict.set String.eqb DEFAULT_NETPERF_OPTIONS "testlen"
                 ("-l " ++ str_of_int run_time))
       "testname" ("-t " ++ testname)) kwargs
  = Ok None.
Proof.
  intros Ht Hu. unfold select_test_options, lookup.
  change (Dict.get String.eqb _ "testname") with (Some ("-t " ++ testname)).
  cbn [rbind]. rewrite testname_is_tcp, testname_is_udp.
  destruct (String.eqb_spec testname "TCP_STREAM"); [contradiction|].
  destruct (String.eqb_spec testname "UDP_STREAM"); [contradiction|].
  reflexivity.
Qed.
End CommandBuilder.

(** C1 (the code departs from it).  A stream-TCP request does not get
    one congestion-control flag: the requested algorithm is stored
    under the new key [cong_alg], so the default [-K cubic] stays in
    the test options and the request's [-K] is added after it. *)
Theorem tcp_command_has_two_cong_flags :
  (forall ns_name destination_ip run_time algo,
     build_cmd ns_name destination_ip run_time
               [("testname", "TCP_STREAM"); ("cong_algo", algo)]
     = Ok ("ip netns exec " ++ ns_name ++ " netperf "
             ++ join " " (base_options run_time "TCP_STREAM")
             ++ " -H " ++ destination_ip
             ++ " -- -K cubic -k THROUGHPUT -K " ++ algo))
  /\ (exists cmd,
        build_cmd "h1" "10.0.0.2" 10
                  [("testname", "TCP_STREAM"); ("cong_algo", "reno")] = Ok cmd
        /\ split cmd
           = ["ip"; "netns"; "exec"; "h1"; "netperf"; "-P"; "0"; "-4";
              "-t"; "TCP_STREAM"; "-F"; "/dev/urandom"; "-l"; "10";
              "-D"; "-0.2"; "-H"; "10.0.0.2"; "--";
              "-K"; "cubic"; "-k"; "THROUGHPUT"; "-K"; "reno"]
        /\ count_flag "-K" (split cmd) = 2).
Proof.
  split.
  - intros. reflexivity.
  - eexists. split; [reflexivity|]. split; reflexivity.
Qed.

(** C3.  When the requested test type is neither [TCP_STREAM] nor
    [UDP_STREAM], building the command raises (the [None] left in
    [test_options] has no [values]); [run_netperf] ends with that
    exception and has performed no event: nothing was slept on,
    started or merged. *)
Theorem unrecognized_testname_fails
  (h : host) (ns_name destination_ip : string) (start_time : Z) (lock : nat)
  (run_time : Z) (kwargs : Dict.t string string) (testname : string) :
  Dict.get String.eqb kwargs "testname" = Some testname ->
  testname <> "TCP_STREAM" ->
  testname <> "UDP_STREAM" ->
  build_cmd ns_name destination_ip run_time kwargs = Raise AttributeError
  /\ run_netperf h ns_name destination_ip start_time lock run_time kwargs
     = ([], Raise AttributeError).
Proof.
  intros Hget Ht Hu.
  assert (Hb : build_cmd ns_name destination_ip run_time kwargs
               = Raise AttributeError).
  { unfold build_cmd, lookup at 1. rewrite Hget. cbn [rbind].
    rewrite select_other by assumption. reflexivity. }
  split; [exact Hb|].
  unfold run_netperf. rewrite Hb. reflexivity.
Qed.

Lemma unrecognized_testname_fails_witness :
  build_cmd "h1" "10.0.0.2" 10 [("testname", "TCP_RR")] = Raise AttributeError
  /\ run_netperf (fun _ => Some "") "h1" "10.0.0.2" 2 0 10
                 [("testname", "TCP_RR")]
     = ([], Raise AttributeError).
Proof.
  apply (@unrecognized_testname_fails _ _ _ _ _ _ _ "TCP_RR").
  - reflexivity.
  - discriminate.
  - discriminate.
Defined.

(** C7.  For a recognized test type the client command is
    [ip netns exec <ns> netperf <base options> -H <peer> -- <test options>];
    the base options are the default values in their declared order
    with only the test-duration and test-type fields replaced, and the
    test options are the values of the selected extension set. *)
Theorem client_command_shape
  (ns_name destination_ip : string) (run_time : Z)
  (kwargs : Dict.t string string) (testname : string) :
  Dict.get String.eqb kwargs "testname" = Some testname ->
  testname = "TCP_STREAM" \/ testname = "UDP_STREAM" ->
  (testname = "TCP_STREAM" ->
   Dict.get String.eqb kwargs "cong_algo" <> None) ->
  exists test_options,
    select_test_options
      (Dict.set String.eqb
         (Dict.set String.eqb DEFAULT_NETPERF_OPTIONS "testlen"
                   ("-l " ++ str_of_int run_time))
         "testname" ("-t " ++ testname)) kwargs
    = Ok (Some test_options)
    /\ build_cmd ns_name destination_ip run_time kwargs
       = Ok ("ip netns exec " ++ ns_name ++ " netperf "
               ++ join " " (base_options run_time testname)
               ++ " -H " ++ destination_ip ++ " -- "
               ++ join " " (Dict.values test_options))
    /\ base_options run_time testname
       = ["-P 0"; "-4"; "-t " ++ testname; "-F /dev/urandom";
          "-l " ++ str_of_int run_time; "-D -0.2"].
Proof.
  intros Hget Hrec Halgo.
  destruct Hrec as [-> | ->].
  - destruct (Dict.get String.eqb kwargs "cong_algo") as [algo|] eqn:Ha;
      [|exfalso; apply Halgo; reflexivity].
    eexists. split; [apply select_tcp; exact Ha|].
    split; [|reflexivity].
    unfold build_cmd, lookup at 1. rewrite Hget. cbn [rbind].
    change ("-t " ++ "TCP_STREAM") with "-t TCP_STREAM".
    rewrite (select_tcp run_time kwargs Ha). reflexivity.
  - exists NETPERF_UDP_OPTIONS. split; [reflexivity|].
    split; [|reflexivity].
    unfold build_cmd, lookup at 1. rewrite Hget. reflexivity.
Qed.

Lemma client_command_shape_witness :
  exists test_options,
    select_test_options
      (Dict.set String.eqb
         (Dict.set String.eqb DEFAULT_NETPERF_OPTIONS "testlen"
                   ("-l " ++ str_of_int 30))
         "testname" ("-t " ++ "UDP_STREAM")) [("testname", "UDP_STREAM")]
    = Ok (Some test_options)
    /\ build_cmd "h1" "10.0.0.2" 30 [("testname", "UDP_STREAM")]
       = Ok ("ip netns exec " ++ "h1" ++ " netperf "
               ++ join " " (base_options 30 "UDP_STREAM")
               ++ " -H " ++ "10.0.0.2" ++ " -- "
               ++ join " " (Dict.values test_options))
    /\ base_options 30 "UDP_STREAM"
       = ["-P 0"; "-4"; "-t " ++ "UDP_STREAM"; "-F /dev/urandom";
          "-l " ++ str_of_int 30; "-D -0.2"].
Proof.
  apply (@client_command_shape "h1" "10.0.0.2" 30
           [("testname", "UDP_STREAM")] "UDP_STREAM").
  - reflexivity.
  - right; reflexivity.
  - discriminate.
Defined.

(* ================================================================== *)
(** ** Strings *)

Lemma append_nil_r (s : string) : s ++ "" = s.
Proof. induction s; simpl; congruence. Qed.

Lemma append_assoc (a b c : string) : (a ++ b) ++ c = a ++ b ++ c.
Proof. induction a; simpl; congruence. Qed.

Lemma length_append (a b : string) :
  String.length (a ++ b) = String.length a + String.length b.
Proof. induction a; simpl; congruence. Qed.

Lemma all_digits_append (a b : string) :
  all_digits (a ++ b) = all_digits a && all_digits b.
Proof.
  induction a as [|c a IH]; simpl; [reflexivity|].
  rewrite IH. apply andb_assoc.
Qed.

Lemma digit_not_lit (c d : ascii) :
  is_digit d = true -> is_digit c = false -> Ascii.eqb c d = false.
Proof.
  intros Hd Hc. destruct (Ascii.eqb_spec c d) as [->|]; congruence.
Qed.

Lemma all_digits_no_char (c : ascii) (ds : string) :
  is_digit c = false -> all_digits ds = true -> no_char c ds.
Proof.
  intros Hc. induction ds as [|d ds IH]; simpl; [trivial|].
  intros H. apply andb_prop in H as [Hd Hds]. split; [|auto].
  intros ->. congruence.
Qed.

Lemma no_char_append (c : ascii) (a b : string) :
  no_char c a -> no_char c b -> no_char c (a ++ b).
Proof. induction a; simpl; intuition. Qed.

(* ================================================================== *)
(** ** The matcher *)

Lemma consume_some c r m rest :
  consume c r = Some (m, rest) ->
  exists m', r = Some (m', rest) /\ m = String c m'.
Proof.
  destruct r as [[m' rest']|]; simpl; [|discriminate].
  intros H; inversion H; subst. eauto.
Qed.

(** What [greedy_digits] returns is a run of digits followed by a
    result of the continuation. *)
Lemma greedy_digits_sound (P : string -> Prop)
  (k : string -> option (string * string)) :
  (forall s m r, k s = Some (m, r) -> s = m ++ r /\ P m) ->
  forall s m r, greedy_digits k s = Some (m, r) ->
  exists ds m', all_digits ds = true /\ m = ds ++ m'
                /\ s = m ++ r /\ P m'.
Proof.
  intros Hk. induction s as [|c s IH]; simpl; intros m r H.
  - apply Hk in H as [-> HP]. exists "", m. auto.
  - destruct (is_digit c) eqn:Hc.
    + destruct (greedy_digits k s) as [[m1 r1]|] eqn:Hg.
      * inversion H; subst; clear H.
        destruct (IH _ _ eq_refl) as (ds & m' & Hds & -> & -> & HP).
        exists (String c ds), m'. simpl. rewrite Hc, Hds. auto.
      * apply Hk in H as [Hs HP]. exists "", m. auto.
    + apply Hk in H as [Hs HP]. exists "", m. auto.
Qed.

Lemma re_match_sound (re : regex) :
  forall s m r, re_match re s = Some (m, r) -> s = m ++ r /\ matches re m.
Proof.
  induction re as [|[c|] re IH]; simpl; intros s m r H.
  - inversion H; subst. auto.
  - destruct s as [|c' s]; [discriminate|].
    destruct (Ascii.eqb_spec c c') as [->|]; [|discriminate].
    apply consume_some in H as (m' & H & ->).
    apply IH in H as [-> Hm]. split; [reflexivity|]. eauto.
  - destruct s as [|c' s]; [discriminate|].
    destruct (is_digit c') eqn:Hc; [|discriminate].
    apply consume_some in H as (m' & H & ->).
    apply (greedy_digits_sound (matches re)) in H
      as (ds & m1 & Hds & -> & -> & Hm); [|exact IH].
    split; [reflexivity|].
    exists (String c' ds), m1. simpl. rewrite Hc, Hds.
    repeat split; [discriminate|assumption].
Qed.

Lemma re_match_lits (p : string) (re : regex) (s : string) :
  re_match (lits p ++ re)%list (p ++ s)
  = match re_match re s with
    | Some (m, r) => Some (p ++ m, r)
    | None => None
    end.
Proof.
  induction p as [|c p IH]; simpl.
  - destruct (re_match re s) as [[m r]|]; reflexivity.
  - rewrite Ascii.eqb_refl, IH.
    destruct (re_match re s) as [[m r]|]; reflexivity.
Qed.

Lemma matches_lits (p : string) (re : regex) (m : string) :
  matches (lits p ++ re)%list m -> exists m', m = p ++ m' /\ matches re m'.
Proof.
  revert m. induction p as [|c p IH]; simpl; intros m H.
  - eauto.
  - destruct H as (m1 & -> & H). apply IH in H as (m' & -> & H). eauto.
Qed.

(** A run of digits before a character that is not a digit: the whole
    run is taken when the continuation accepts what follows. *)
Lemma greedy_digits_run k (ds : string) (c : ascii) (s m r : string) :
  all_digits ds = true -> is_digit c = false ->
  k (String c s) = Some (m, r) ->
  greedy_digits k (ds ++ String c s) = Some (ds ++ m, r).
Proof.
  intros Hds Hc Hk. induction ds as [|d ds IH]; simpl.
  - rewrite Hc. exact Hk.
  - simpl in Hds. apply andb_prop in Hds as [Hd Hds].
    rewrite Hd, (IH Hds). reflexivity.
Qed.

(** ... and every shorter run fails with it when the continuation
    rejects both digits and what follows. *)
Lemma greedy_digits_none k (ds s : string) :
  all_digits ds = true ->
  (forall d t, is_digit d = true -> k (String d t) = None) ->
  match s with String c _ => is_digit c = false | EmptyString => True end ->
  k s = None ->
  greedy_digits k (ds ++ s) = None.
Proof.
  intros Hds Hkd Hs Hk. induction ds as [|d ds IH]; simpl.
  - destruct s as [|c s]; simpl; [exact Hk|]. rewrite Hs. exact Hk.
  - simpl in Hds. apply andb_prop in Hds as [Hd Hds].
    rewrite Hd, (IH Hds). apply Hkd. exact Hd.
Qed.

Lemma re_match_lit_mismatch (c c' : ascii) (re : regex) (s : string) :
  c' <> c -> re_match (Lit c :: re) (String c' s) = None.
Proof.
  intros H. simpl. destruct (Ascii.eqb_spec c c'); congruence.
Qed.

Lemma re_match_lit_digit (c d : ascii) (re : regex) (s : string) :
  is_digit c = false -> is_digit d = true ->
  re_match (Lit c :: re) (String d s) = None.
Proof.
  intros Hc Hd. apply re_match_lit_mismatch. intros ->. congruence.
Qed.

(* ================================================================== *)
(** ** [findall] and [sub] *)

Lemma findall_from_matches (re : regex) (s : string) :
  forall skip m, In m (findall_from re s skip) ->
  exists s' r, re_match re s' = Some (m, r).
Proof.
  induction s as [|c s IH]; intros skip m; cbn [findall_from].
  - destruct skip; [|intros []].
    destruct (re_match re "") as [[m0 r0]|] eqn:E; [|intros []].
    intros [<-|[]]. eauto.
  - destruct skip as [|n]; [|apply IH].
    destruct (re_match re (String c s)) as [[m0 r0]|] eqn:E; [|apply IH].
    intros [<-|H]; [eauto|]. eapply IH; eassumption.
Qed.

Lemma findall_from_skip (re : regex) (x s : string) :
  x <> "" \/ s <> "" ->
  findall_from re (x ++ s) (String.length x) = findall_from re s 0.
Proof.
  induction x as [|c x IH]; intros H; simpl.
  - reflexivity.
  - destruct x as [|c' x].
    + simpl. destruct s; simpl; [|reflexivity].
      reflexivity.
    + apply IH. left; discriminate.
Qed.

Lemma findall_unmatched (re : regex) (pre rest : string) :
  unmatched re pre rest ->
  findall_from re (pre ++ rest) 0 = findall_from re rest 0.
Proof.
  induction pre as [|c pre IH]; simpl; [reflexivity|].
  intros [H Hu]. rewrite H. auto.
Qed.

Lemma unmatched_append (re : regex) (a b rest : string) :
  unmatched re a (b ++ rest) -> unmatched re b rest ->
  unmatched re (a ++ b) rest.
Proof.
  induction a as [|c a IH]; simpl; [auto|].
  intros [H Ha] Hb. rewrite append_assoc. auto.
Qed.

Lemma unmatched_no_char (c : ascii) (re : regex) (pre rest : string) :
  no_char c pre -> unmatched (Lit c :: re) pre rest.
Proof.
  induction pre as [|c' pre IH]; simpl; [trivial|].
  intros [Hc H]. split; [|auto].
  destruct (Ascii.eqb_spec c c'); congruence.
Qed.

Lemma delete_from_skip (re : regex) (x s : string) :
  delete_from re (x ++ s) (String.length x) = delete_from re s 0.
Proof. induction x as [|c x IH]; simpl; auto. Qed.

Lemma delete_from_no_char (c : ascii) (re : regex) (s : string) :
  no_char c s -> delete_from (Lit c :: re) s 0 = s.
Proof.
  induction s as [|c' s IH]; [reflexivity|].
  intros [Hc H]. cbn [delete_from].
  rewrite (re_match_lit_mismatch re s Hc), (IH H). reflexivity.
Qed.

(* ================================================================== *)
(** ** [float] and list comprehensions *)

Lemma span_digits_run (ds : string) (c : ascii) (s : string) :
  all_digits ds = true -> is_digit c = false ->
  span_digits (ds ++ String c s) = (ds, String c s).
Proof.
  intros Hds Hc. induction ds as [|d ds IH]; simpl.
  - rewrite Hc. reflexivity.
  - simpl in Hds. apply andb_prop in Hds as [Hd Hds].
    rewrite Hd, (IH Hds). reflexivity.
Qed.

Lemma float_of_decimal (ip fp : string) :
  ip <> "" -> all_digits ip = true -> all_digits fp = true ->
  float_of_string (ip ++ "." ++ fp)
  = Ok (float_of_ratio (digits_value 0 (ip ++ fp))
                       (10 ^ Z.of_nat (String.length fp))).
Proof.
  intros Hne Hip Hfp. unfold float_of_string.
  change (ip ++ "." ++ fp) with (ip ++ String "." fp).
  rewrite span_digits_run by (assumption || reflexivity).
  rewrite Ascii.eqb_refl, Hfp.
  destruct ip; [contradiction|]. reflexivity.
Qed.

Lemma rmap_total {A B} (f : A -> result B) (xs : list A) :
  (forall x, In x xs -> exists y, f x = Ok y) ->
  exists ys, rmap f xs = Ok ys /\ List.length ys = List.length xs.
Proof.
  induction xs as [|x xs IH]; intros H; simpl.
  - exists []. auto.
  - destruct (H x (or_introl eq_refl)) as [y ->].
    destruct IH as (ys & -> & Hl); [intros; apply H; right; assumption|].
    exists (y :: ys). simpl. auto.
Qed.

Lemma rmap_nth {A B} (f : A -> result B) (xs : list A) (ys : list B) :
  rmap f xs = Ok ys ->
  forall i x, nth_error xs i = Some x ->
  exists y, nth_error ys i = Some y /\ f x = Ok y.
Proof.
  revert ys. induction xs as [|x0 xs IH]; simpl; intros ys H i x Hi.
  - destruct i; discriminate.
  - destruct (f x0) as [y0|] eqn:E0; [|discriminate]. simpl in H.
    destruct (rmap f xs) as [ys0|]; [|discriminate]. simpl in H.
    inversion H; subst; clear H.
    destruct i as [|i]; simpl in *.
    + inversion Hi; subst. eauto.
    + eapply IH; eauto.
Qed.

(* ================================================================== *)
(** ** Marker lines

    Everything the parser does with a marker holds for any name that
    starts with a character which is neither a digit nor the dot. *)

Section Marker.
Variable c0 : ascii.
Variable name' : string.
Hypothesis c0_not_digit : is_digit c0 = false.
Hypothesis c0_not_dot : c0 <> "."%char.

Local Abbreviation name := (String c0 name').

Lemma marker_match_shape (s m r : string) :
  re_match (marker_pattern name) s = Some (m, r) ->
  exists idx ip fp,
    m = name ++ "[" ++ idx ++ "]=" ++ ip ++ "." ++ fp
    /\ (idx <> "" /\ all_digits idx = true)
    /\ (ip <> "" /\ all_digits ip = true)
    /\ (fp <> "" /\ all_digits fp = true).
Proof.
  intros H. apply re_match_sound in H as [_ H].
  apply matches_lits in H as (m1 & -> & H). simpl in H.
  destruct H as (m2 & -> & idx & m3 & Hi & Hid & -> & m4 & -> & m5 & ->
                 & ip & m6 & Hp & Hipd & -> & m7 & -> & fp & m8 & Hf & Hfd
                 & -> & ->).
  exists idx, ip, fp. rewrite append_nil_r. simpl. auto 10.
Qed.

Lemma marker_prefix_match (idx rest : string) :
  idx <> "" -> all_digits idx = true ->
  re_match (marker_prefix_pattern name) (name ++ "[" ++ idx ++ "]=" ++ rest)
  = Some (name ++ "[" ++ idx ++ "]=", rest).
Proof.
  intros Hne Hd. unfold marker_prefix_pattern. rewrite re_match_lits.
  destruct idx as [|d idx]; [contradiction|].
  simpl in Hd. apply andb_prop in Hd as [Hd Hds].
  cbn [append re_match lits]. rewrite Ascii.eqb_refl. cbn [re_match].
  rewrite Hd.
  rewrite (@greedy_digits_run _ idx "]" ("=" ++ rest) "]=" rest Hds);
    reflexivity.
Qed.

Lemma marker_payload (idx ip fp : string) :
  idx <> "" -> all_digits idx = true ->
  all_digits ip = true -> all_digits fp = true ->
  sub_empty (marker_prefix_pattern name)
            (name ++ "[" ++ idx ++ "]=" ++ ip ++ "." ++ fp)
  = ip ++ "." ++ fp.
Proof.
  intros Hne Hd Hip Hfp. unfold sub_empty.
  pose proof (marker_prefix_match (ip ++ "." ++ fp) Hne Hd) as Hm.
  change (name ++ "[" ++ idx ++ "]=" ++ ip ++ "." ++ fp)
    with (String c0 (name' ++ "[" ++ idx ++ "]=" ++ ip ++ "." ++ fp)) in *.
  cbn [delete_from]. rewrite Hm.
  change (name ++ "[" ++ idx ++ "]=")
    with (String c0 (name' ++ "[" ++ idx ++ "]=")).
  cbn [String.length]. rewrite Nat.sub_1_r, Nat.pred_succ.
  replace (name' ++ "[" ++ idx ++ "]=" ++ ip ++ "." ++ fp)
    with ((name' ++ "[" ++ idx ++ "]=") ++ ip ++ "." ++ fp)
    by (rewrite !append_assoc; reflexivity).
  rewrite delete_from_skip.
  apply (delete_from_no_char c0).
  apply no_char_append; [apply all_digits_no_char; assumption|].
  split; [congruence|]. apply all_digits_no_char; assumption.
Qed.

(** An integer payload: the marker is not matched where it stands. *)
Lemma integer_marker_no_match (idx payload rest : string) :
  idx <> "" -> all_digits idx = true ->
  payload <> "" -> all_digits payload = true ->
  no_fraction rest = true ->
  re_match (marker_pattern name)
           (name ++ "[" ++ idx ++ "]=" ++ payload ++ rest) = None.
Proof.
  intros Hi Hid Hp Hpd Hrest. unfold marker_pattern.
  rewrite re_match_lits.
  destruct idx as [|d idx]; [contradiction|].
  simpl in Hid. apply andb_prop in Hid as [Hd Hid].
  cbn [append re_match lits]. rewrite Ascii.eqb_refl. cbn [re_match].
  rewrite Hd.
  rewrite greedy_digits_none; [reflexivity|exact Hid| | |].
  - intros d' t Hd'. apply re_match_lit_digit; [reflexivity|exact Hd'].
  - reflexivity.
  - destruct payload as [|e payload]; [contradiction|].
    simpl in Hpd. apply andb_prop in Hpd as [He Hpd].
    cbn [append re_match app]. rewrite !Ascii.eqb_refl. cbn [re_match].
    rewrite He.
    rewrite greedy_digits_none; [reflexivity|exact Hpd| | |].
    + intros d' t Hd'.
      exact (@re_match_lit_digit "." d' [Digits] t eq_refl Hd').
    + destruct rest as [|c rest]; [trivial|]. simpl in Hrest.
      apply andb_prop in Hrest as [Hc _].
      now apply negb_true_iff in Hc.
    + destruct rest as [|c rest]; [reflexivity|]. simpl in Hrest.
      apply andb_prop in Hrest as [Hc Hfr].
      apply negb_true_iff in Hfr. cbn [re_match].
      destruct (Ascii.eqb_spec "." c) as [<-|]; [|reflexivity].
      rewrite Ascii.eqb_refl in Hfr. cbn [andb] in Hfr.
      destruct rest as [|c' rest]; [reflexivity|].
      rewrite Hfr. reflexivity.
Qed.

(** The conversions never raise: what [findall] returns always
    yields a decimal literal once the marker's prefix is deleted. *)
Lemma extract_floats_total (raw_stats : string) :
  exists xs,
    extract_floats (marker_pattern name) (marker_prefix_pattern name)
                   raw_stats = Ok xs
    /\ List.length xs = List.length (findall (marker_pattern name) raw_stats).
Proof.
  apply rmap_total. intros stat Hin.
  apply findall_from_matches in Hin as (s' & r & Hm).
  apply marker_match_shape in Hm
    as (idx & ip & fp & -> & [Hi Hid] & [Hp Hpd] & [Hf Hfd]).
  rewrite marker_payload by assumption.
  rewrite float_of_decimal by assumption. eauto.
Qed.
End Marker.

Lemma throughputs_total (raw_stats : string) :
  exists xs, throughputs_of raw_stats = Ok xs
    /\ List.length xs
       = List.length (findall throughput_pattern raw_stats).
Proof.
  apply (@extract_floats_total "N" "ETPERF_INTERIM_RESULT");
    [reflexivity|discriminate].
Qed.

Lemma timestamps_total (raw_stats : string) :
  exists xs, timestamps_of raw_stats = Ok xs
    /\ List.length xs
       = List.length (findall timestamp_pattern raw_stats).
Proof.
  apply (@extract_floats_total "N" "ETPERF_ENDING");
    [reflexivity|discriminate].
Qed.

(* ================================================================== *)
(** ** Dictionaries *)

Section DictFacts.
Variables K V : Type.
Variable eqb : K -> K -> bool.
Hypothesis eqb_spec : forall x y, reflect (x = y) (eqb x y).

Local Abbreviation dset := (Dict.set eqb).
Local Abbreviation dget := (Dict.get eqb).
Local Abbreviation dfold := (fold_left (fun (d : Dict.t K V) kv =>
                                Dict.set eqb d (fst kv) (snd kv))).

Lemma get_set_same (d : Dict.t K V) k v : dget (dset d k v) k = Some v.
Proof.
  induction d as [|[k' v'] d IH]; simpl.
  - destruct (eqb_spec k k); congruence.
  - destruct (eqb_spec k' k) as [->|Hne]; simpl.
    + destruct (eqb_spec k k); congruence.
    + destruct (eqb_spec k' k); congruence.
Qed.

Lemma get_set_other (d : Dict.t K V) k v k0 :
  k <> k0 -> dget (dset d k v) k0 = dget d k0.
Proof.
  intros Hne. induction d as [|[k' v'] d IH]; simpl.
  - destruct (eqb_spec k k0); congruence.
  - destruct (eqb_spec k' k) as [->|Hk]; simpl.
    + destruct (eqb_spec k k0); congruence.
    + destruct (eqb_spec k' k0); congruence.
Qed.

Lemma keys_set_in (d : Dict.t K V) k v k0 :
  In k0 (Dict.keys (dset d k v)) <-> k0 = k \/ In k0 (Dict.keys d).
Proof.
  induction d as [|[k' v'] d IH]; simpl.
  - intuition.
  - destruct (eqb_spec k' k) as [->|Hk]; simpl; intuition.
Qed.

Lemma keys_set_nodup (d : Dict.t K V) k v :
  NoDup (Dict.keys d) -> NoDup (Dict.keys (dset d k v)).
Proof.
  induction d as [|[k' v'] d IH]; simpl; intros H.
  - constructor; [intros []|constructor].
  - destruct (eqb_spec k' k) as [->|Hk]; simpl; [exact H|].
    inversion H; subst. constructor; [|auto].
    rewrite keys_set_in. intros [->|Hin]; congruence.
Qed.

Lemma get_in_keys (d : Dict.t K V) k v :
  dget d k = Some v -> In k (Dict.keys d).
Proof.
  induction d as [|[k' v'] d IH]; simpl; [discriminate|].
  destruct (eqb_spec k' k) as [->|Hk]; auto.
Qed.

Lemma fold_keys_nodup (kvs : list (K * V)) :
  forall d, NoDup (Dict.keys d) -> NoDup (Dict.keys (dfold kvs d)).
Proof.
  induction kvs as [|[k v] kvs IH]; simpl; intros d H; [exact H|].
  apply IH, keys_set_nodup, H.
Qed.

Lemma fold_get_absent (kvs : list (K * V)) k :
  (forall kv, In kv kvs -> fst kv <> k) ->
  forall d, dget (dfold kvs d) k = dget d k.
Proof.
  induction kvs as [|[k' v'] kvs IH]; simpl; intros H d; [reflexivity|].
  rewrite IH by (intros; apply H; right; assumption).
  apply get_set_other. apply (H (k', v')). left; reflexivity.
Qed.

(** The last assignment to a key is the one that stays. *)
Lemma fold_get_last (kvs : list (K * V)) :
  forall d i k v,
    nth_error kvs i = Some (k, v) ->
    (forall j kv, i < j -> nth_error kvs j = Some kv -> fst kv <> k) ->
    dget (dfold kvs d) k = Some v.
Proof.
  induction kvs as [|[k' v'] kvs IH]; intros d i k v Hi Hlast.
  - destruct i; discriminate.
  - destruct i as [|i]; simpl in Hi |- *.
    + inversion Hi; subst; clear Hi.
      rewrite fold_get_absent; [apply get_set_same|].
      intros kv Hin. apply In_nth_error in Hin as [j Hj].
      apply (Hlast (S j)); [lia|exact Hj].
    + apply (IH _ i); [exact Hi|].
      intros j kv Hlt Hj. apply (Hlast (S j)); [lia|exact Hj].
Qed.
End DictFacts.

Lemma pyfloat_eqb_spec (x y : pyfloat) : reflect (x = y) (pyfloat_eqb x y).
Proof.
  destruct x as [|m e], y as [|m' e']; simpl; try (constructor; congruence).
  destruct (Z.eqb_spec m m'), (Z.eqb_spec e e'); simpl;
    constructor; congruence.
Qed.

(* ================================================================== *)
(** ** The pairing loop *)

(** With at least as many timestamps as throughputs the loop assigns
    the pairs of [zip(timestamps, throughputs)] in order. *)
Lemma pair_loop_zip (throughputs timestamps : list pyfloat) :
  forall ths tss ths0 tss0 d,
    throughputs = (ths0 ++ ths)%list -> timestamps = (tss0 ++ tss)%list ->
    List.length tss0 = List.length ths0 ->
    List.length ths <= List.length tss ->
    pair_loop (seq (List.length ths0) (List.length ths))
              timestamps throughputs d
    = Ok (fold_left (fun d kv => Dict.set pyfloat_eqb d (fst kv) (snd kv))
                    (combine tss ths) d).
Proof.
  induction ths as [|th ths IH]; intros tss ths0 tss0 d Hth Hts Hl0 Hle.
  - destruct tss; reflexivity.
  - destruct tss as [|ts tss]; [simpl in Hle; lia|].
    cbn [List.length seq pair_loop combine fold_left].
    rewrite Hth at 1. rewrite nth_error_app2, Nat.sub_diag by lia.
    cbn [nth_error]. rewrite Hts at 1.
    rewrite nth_error_app2, Hl0, Nat.sub_diag by lia. cbn [nth_error].
    replace (S (List.length ths0)) with (List.length (ths0 ++ [th])%list)
      by (rewrite length_app; simpl; lia).
    apply (IH tss (ths0 ++ [th])%list (tss0 ++ [ts])%list).
    + rewrite <- app_assoc. exact Hth.
    + rewrite <- app_assoc. exact Hts.
    + rewrite !length_app. simpl. lia.
    + simpl in Hle. lia.
Qed.

(** With fewer timestamps than throughputs the subscript
    [timestamps[i]] runs off the end of the list. *)
Lemma pair_loop_raises (throughputs timestamps : list pyfloat) :
  forall ths tss ths0 tss0 d,
    throughputs = (ths0 ++ ths)%list -> timestamps = (tss0 ++ tss)%list ->
    List.length tss0 = List.length ths0 ->
    List.length tss < List.length ths ->
    pair_loop (seq (List.length ths0) (List.length ths))
              timestamps throughputs d
    = Raise IndexError.
Proof.
  induction ths as [|th ths IH]; intros tss ths0 tss0 d Hth Hts Hl0 Hlt.
  - simpl in Hlt. lia.
  - cbn [List.length seq pair_loop].
    rewrite Hth at 1. rewrite nth_error_app2, Nat.sub_diag by lia.
    cbn [nth_error]. rewrite Hts at 1.
    rewrite nth_error_app2, Hl0, Nat.sub_diag by lia.
    destruct tss as [|ts tss]; [reflexivity|]. cbn [nth_error].
    replace (S (List.length ths0)) with (List.length (ths0 ++ [th])%list)
      by (rewrite length_app; simpl; lia).
    apply (IH tss (ths0 ++ [th])%list (tss0 ++ [ts])%list).
    + rewrite <- app_assoc. exact Hth.
    + rewrite <- app_assoc. exact Hts.
    + rewrite !length_app. simpl. lia.
    + simpl in Hlt. lia.
Qed.

Lemma stats_dict_of_zip (raw_stats : string)
  (throughputs timestamps : list pyfloat) :
  throughputs_of raw_stats = Ok throughputs ->
  timestamps_of raw_stats = Ok timestamps ->
  List.length throughputs <= List.length timestamps ->
  stats_dict_of raw_stats
  = Ok (Dict.of_list pyfloat_eqb (combine timestamps throughputs)).
Proof.
  intros Hth Hts Hle. unfold stats_dict_of. rewrite Hth, Hts. cbn [rbind].
  apply (@pair_loop_zip throughputs timestamps throughputs timestamps [] []);
    auto.
Qed.

Lemma stats_dict_of_raises (raw_stats : string) :
  List.length (findall timestamp_pattern raw_stats)
  < List.length (findall throughput_pattern raw_stats) ->
  stats_dict_of raw_stats = Raise IndexError.
Proof.
  intros Hlt.
  destruct (throughputs_total raw_stats) as (ths & Hth & Hlth).
  destruct (timestamps_total raw_stats) as (tss & Hts & Hlts).
  unfold stats_dict_of. rewrite Hth, Hts. cbn [rbind].
  apply (@pair_loop_raises ths tss ths tss [] []); auto. lia.
Qed.

Lemma nth_error_combine {A B} (xs : list A) (ys : list B) :
  forall i x y,
    nth_error xs i = Some x -> nth_error ys i = Some y ->
    nth_error (combine xs ys) i = Some (x, y).
Proof.
  revert ys. induction xs as [|x0 xs IH]; intros ys i x y Hx Hy.
  - destruct i; discriminate.
  - destruct ys as [|y0 ys]; [destruct i; discriminate|].
    destruct i as [|i]; simpl in *.
    + congruence.
    + auto.
Qed.

Lemma nth_error_combine_inv {A B} (xs : list A) (ys : list B) :
  forall i x y,
    nth_error (combine xs ys) i = Some (x, y) ->
    nth_error xs i = Some x /\ nth_error ys i = Some y.
Proof.
  revert ys. induction xs as [|x0 xs IH]; intros ys i x y H.
  - destruct i; discriminate.
  - destruct ys as [|y0 ys]; [destruct i; discriminate|].
    destruct i as [|i]; simpl in *.
    + inversion H; auto.
    + auto.
Qed.

(** The value found under a timestamp is the throughput of the last
    pair that carries it. *)
Lemma zip_get_last (throughputs timestamps : list pyfloat) i ts th :
  nth_error throughputs i = Some th ->
  nth_error timestamps i = Some ts ->
  (forall j, i < j -> j < List.length throughputs ->
             nth_error timestamps j <> Some ts) ->
  Dict.get pyfloat_eqb
    (Dict.of_list pyfloat_eqb (combine timestamps throughputs)) ts = Some th.
Proof.
  intros Hth Hts Hlast. unfold Dict.of_list.
  apply (@fold_get_last _ _ _ pyfloat_eqb_spec) with (i := i).
  - apply nth_error_combine; assumption.
  - intros j [ts' th'] Hlt Hj. apply nth_error_combine_inv in Hj as [Hj Hj'].
    simpl. intros ->. apply (Hlast j); auto.
    apply nth_error_Some. congruence.
Qed.

Lemma zip_keys_nodup (throughputs timestamps : list pyfloat) :
  NoDup (Dict.keys (Dict.of_list pyfloat_eqb (combine timestamps throughputs))).
Proof.
  apply (@fold_keys_nodup _ _ _ pyfloat_eqb_spec). constructor.
Qed.

(* ================================================================== *)
(** ** The parser *)

(** C2 (the code departs from it).  Three throughput markers and two
    timestamp markers do not give two samples: the loop runs over the
    throughputs, [timestamps[2]] is out of range, and [parse_stats]
    ends with [IndexError] before taking the lock or adding anything
    to the store. *)
Theorem surplus_throughput_raises :
  let raw_stats :=
    "NETPERF_INTERIM_RESULT[0]=10.0 NETPERF_ENDING[0]=1.0 NETPERF_INTERIM_RESULT[1]=20.0 NETPERF_ENDING[1]=2.0 NETPERF_INTERIM_RESULT[2]=30.0" in
  List.length (findall throughput_pattern raw_stats) = 3
  /\ List.length (findall timestamp_pattern raw_stats) = 2
  /\ stats_dict_of raw_stats = Raise IndexError
  /\ parse_stats raw_stats "h1" 0 = ([], Raise IndexError).
Proof. vm_compute. auto. Qed.

(** The other direction is harmless: surplus timestamps are ignored. *)
Example surplus_timestamp_ignored :
  stats_dict_of
    "NETPERF_INTERIM_RESULT[0]=10.0 NETPERF_ENDING[0]=1.0 NETPERF_ENDING[1]=2.0"
  = Ok [(float_lit "1.0", float_lit "10.0")].
Proof. vm_compute. reflexivity. Qed.

(** C4.  For every input both value lists exist, their i-th elements
    come from the i-th markers of their families in text order, and
    the dict the loop builds is [dict(zip(timestamps, throughputs))]:
    the i-th throughput is stored under the i-th timestamp, and stays
    there unless a later pair carries the same timestamp.  That dict
    is the result whenever every throughput has a timestamp to go
    with.  The interleaved four-marker input gives
    [{1.0: 12.5, 2.0: 15.0}]. *)
Theorem positional_pairing :
  (forall raw_stats,
     exists throughputs timestamps,
       throughputs_of raw_stats = Ok throughputs
       /\ timestamps_of raw_stats = Ok timestamps
       /\ (forall i stat,
             nth_error (findall throughput_pattern raw_stats) i = Some stat ->
             exists th,
               nth_error throughputs i = Some th
               /\ float_of_string
                    (sub_empty extract_throughput_pattern stat) = Ok th)
       /\ (forall i stat,
             nth_error (findall timestamp_pattern raw_stats) i = Some stat ->
             exists ts,
               nth_error timestamps i = Some ts
               /\ float_of_string
                    (sub_empty extract_interval_pattern stat) = Ok ts)
       /\ stats_dict_of raw_stats
          = (if (List.length throughputs <=? List.length timestamps)%nat
             then Ok (Dict.of_list pyfloat_eqb (combine timestamps throughputs))
             else Raise IndexError)
       /\ forall i ts th,
            nth_error throughputs i = Some th ->
            nth_error timestamps i = Some ts ->
            (forall j, i < j -> j < List.length throughputs ->
                       nth_error timestamps j <> Some ts) ->
            Dict.get pyfloat_eqb
              (Dict.of_list pyfloat_eqb (combine timestamps throughputs)) ts
            = Some th)
  /\ stats_dict_of
       "NETPERF_INTERIM_RESULT[0]=12.5 ... NETPERF_ENDING[0]=1.0 NETPERF_INTERIM_RESULT[1]=15.0 NETPERF_ENDING[1]=2.0"
     = Ok [(float_lit "1.0", float_lit "12.5");
           (float_lit "2.0", float_lit "15.0")].
Proof.
  split; [|vm_compute; reflexivity].
  intros raw_stats.
  destruct (throughputs_total raw_stats) as (ths & Hth & Hlth).
  destruct (timestamps_total raw_stats) as (tss & Hts & Hlts).
  exists ths, tss.
  split; [exact Hth|]. split; [exact Hts|].
  split; [exact (rmap_nth _ _ Hth)|]. split; [exact (rmap_nth _ _ Hts)|].
  split.
  - destruct (Nat.leb_spec (List.length ths) (List.length tss)).
    + apply stats_dict_of_zip; assumption.
    + apply stats_dict_of_raises. lia.
  - intros i ts th. apply zip_get_last.
Qed.

Lemma positional_pairing_witness :
  exists throughputs timestamps,
    stats_dict_of "NETPERF_INTERIM_RESULT[7]=3.25 NETPERF_ENDING[7]=0.5"
    = Ok (Dict.of_list pyfloat_eqb (combine timestamps throughputs))
    /\ Dict.get pyfloat_eqb
         (Dict.of_list pyfloat_eqb (combine timestamps throughputs))
         (float_lit "0.5")
       = Some (float_lit "3.25").
Proof.
  destruct (proj1 positional_pairing
              "NETPERF_INTERIM_RESULT[7]=3.25 NETPERF_ENDING[7]=0.5")
    as (ths & tss & Hth & Hts & _ & _ & Hd & Hget).
  exists ths, tss.
  assert (Eth : ths = [float_lit "3.25"]).
  { vm_compute in Hth. inversion Hth. vm_compute. reflexivity. }
  assert (Ets : tss = [float_lit "0.5"]).
  { vm_compute in Hts. inversion Hts. vm_compute. reflexivity. }
  split.
  - rewrite Hd, Eth, Ets. reflexivity.
  - apply (Hget 0).
    + rewrite Eth. reflexivity.
    + rewrite Ets. reflexivity.
    + intros j Hj Hlt. rewrite Eth in Hlt. simpl in Hlt. lia.
Defined.

(** C5.  When a timestamp value occurs in more than one timestamp
    marker, it is a key of the resulting dict exactly once, and its
    value is the throughput of the last pair that carries it.
    Timestamps [1.0], [1.0] with throughputs [10.0], [20.0] give
    [{1.0: 20.0}]. *)
Theorem duplicate_timestamp_last_wins :
  (forall raw_stats,
     List.length (findall throughput_pattern raw_stats)
     <= List.length (findall timestamp_pattern raw_stats) ->
     exists throughputs timestamps d,
       throughputs_of raw_stats = Ok throughputs
       /\ timestamps_of raw_stats = Ok timestamps
       /\ stats_dict_of raw_stats = Ok d
       /\ forall i j k ts th,
            i <> j ->
            nth_error timestamps i = Some ts ->
            nth_error timestamps j = Some ts ->
            nth_error timestamps k = Some ts ->
            nth_error throughputs k = Some th ->
            (forall l, k < l -> l < List.length throughputs ->
                       nth_error timestamps l <> Some ts) ->
            count_occ pyfloat_eq_dec (Dict.keys d) ts = 1
            /\ Dict.get pyfloat_eqb d ts = Some th)
  /\ stats_dict_of
       "NETPERF_INTERIM_RESULT[0]=10.0 NETPERF_ENDING[0]=1.0 NETPERF_INTERIM_RESULT[1]=20.0 NETPERF_ENDING[1]=1.0"
     = Ok [(float_lit "1.0", float_lit "20.0")].
Proof.
  split; [|vm_compute; reflexivity].
  intros raw_stats Hle.
  destruct (throughputs_total raw_stats) as (ths & Hth & Hlth).
  destruct (timestamps_total raw_stats) as (tss & Hts & Hlts).
  exists ths, tss, (Dict.of_list pyfloat_eqb (combine tss ths)).
  split; [exact Hth|]. split; [exact Hts|].
  split; [apply stats_dict_of_zip; auto; lia|].
  intros i j k ts th _ _ _ Hk Hthk Hlast.
  assert (Hget : Dict.get pyfloat_eqb
                   (Dict.of_list pyfloat_eqb (combine tss ths)) ts = Some th)
    by (apply zip_get_last with (i := k); assumption).
  split; [|exact Hget].
  apply NoDup_count_occ'; [apply zip_keys_nodup|].
  exact (@get_in_keys _ _ _ pyfloat_eqb_spec _ _ _ Hget).
Qed.

Lemma duplicate_timestamp_last_wins_witness :
  exists d,
    stats_dict_of
      "NETPERF_INTERIM_RESULT[0]=1.5 NETPERF_ENDING[0]=0.2 NETPERF_INTERIM_RESULT[1]=2.5 NETPERF_ENDING[1]=0.20"
    = Ok d
    /\ count_occ pyfloat_eq_dec (Dict.keys d) (float_lit "0.2") = 1
    /\ Dict.get pyfloat_eqb d (float_lit "0.2") = Some (float_lit "2.5").
Proof.
  destruct (proj1 duplicate_timestamp_last_wins
              "NETPERF_INTERIM_RESULT[0]=1.5 NETPERF_ENDING[0]=0.2 NETPERF_INTERIM_RESULT[1]=2.5 NETPERF_ENDING[1]=0.20")
    as (ths & tss & d & Hth & Hts & Hd & Hdup).
  - vm_compute. lia.
  - exists d. split; [exact Hd|].
    assert (Eth : ths = [float_lit "1.5"; float_lit "2.5"]).
    { vm_compute in Hth. inversion Hth. vm_compute. reflexivity. }
    assert (Ets : tss = [float_lit "0.2"; float_lit "0.2"]).
    { vm_compute in Hts. inversion Hts. vm_compute. reflexivity. }
    apply (Hdup 0 1 1).
    + discriminate.
    + rewrite Ets. reflexivity.
    + rewrite Ets. reflexivity.
    + rewrite Ets. reflexivity.
    + rewrite Eth. reflexivity.
    + intros l Hl Hlt. rewrite Eth in Hlt. simpl in Hlt. lia.
Defined.

Lemma parse_stats_eq (raw_stats ns_name : string) (lock : nat) :
  parse_stats raw_stats ns_name lock
  = match stats_dict_of raw_stats with
    | Ok d => ([LockAcquire lock; AddResult ns_name d; LockRelease lock],
               Ok tt)
    | Raise e => ([], Raise e)
    end.
Proof.
  unfold parse_stats. destruct (stats_dict_of raw_stats); reflexivity.
Qed.

Lemma parse_stats_merge_events (raw_stats ns_name : string) (lock : nat) :
  Forall merge_event (trace (parse_stats raw_stats ns_name lock)).
Proof.
  rewrite parse_stats_eq. destruct (stats_dict_of raw_stats); simpl.
  - repeat constructor.
  - constructor.
Qed.

Lemma sleep_in_range (secs : Z) :
  (0 <= secs <= SLEEP_MAX)%Z -> sleep secs = emit (Sleep secs).
Proof.
  intros Hs. unfold sleep, out_of_range.
  destruct (Z.ltb_spec secs (- SLEEP_MAX)); [unfold SLEEP_MAX in *; lia|].
  destruct (Z.ltb_spec SLEEP_MAX secs); [lia|].
  destruct (Z.ltb_spec secs 0); [lia|]. reflexivity.
Qed.

Lemma run_netperf_eq (h : host) (ns_name destination_ip : string)
  (start_time : Z) (lock : nat) (run_time : Z)
  (kwargs : Dict.t string string) (cmd : string) :
  build_cmd ns_name destination_ip run_time kwargs = Ok cmd ->
  (0 <= start_time <= SLEEP_MAX)%Z ->
  run_netperf h ns_name destination_ip start_time lock run_time kwargs
  = ((delay_events start_time
        ++ Popen (split cmd) :: after_launch h cmd ns_name lock)%list,
     match h (split cmd) with
     | Some out => outcome (parse_stats out ns_name lock)
     | None => Raise OSError
     end).
Proof.
  intros Hb Hs. unfold run_netperf, after_launch. rewrite Hb.
  rewrite (sleep_in_range Hs).
  unfold delay_events, run_test_commands.
  destruct (Z.eqb_spec start_time 0) as [->|Hne]; cbn [negb].
  - cbn -[parse_stats]. destruct (h (split cmd)) as [out|]; [|reflexivity].
    cbn -[parse_stats].
    destruct (parse_stats out ns_name lock) as [t [[]|e]]; reflexivity.
  - destruct (Z.ltb_spec 0 start_time); [|lia].
    cbn -[parse_stats]. destruct (h (split cmd)) as [out|]; [|reflexivity].
    cbn -[parse_stats].
    destruct (parse_stats out ns_name lock) as [t [[]|e]]; reflexivity.
Qed.

(** A delay outside the range [time.sleep] accepts ends the run before
    the child is started. *)
Lemma run_netperf_refused (h : host) (ns_name destination_ip : string)
  (start_time : Z) (lock : nat) (run_time : Z)
  (kwargs : Dict.t string string) (cmd : string) :
  build_cmd ns_name destination_ip run_time kwargs = Ok cmd ->
  (start_time < 0 \/ SLEEP_MAX < start_time)%Z ->
  run_netperf h ns_name destination_ip start_time lock run_time kwargs
  = ([], Raise (if out_of_range start_time then OverflowError
                else ValueError)).
Proof.
  intros Hb Hs. unfold run_netperf. rewrite Hb.
  destruct (Z.eqb_spec start_time 0) as [->|Hne];
    [unfold SLEEP_MAX in Hs; lia|].
  cbn [negb]. unfold sleep.
  destruct (out_of_range start_time) eqn:Ho; [reflexivity|].
  destruct (Z.ltb_spec start_time 0) as [Hneg|Hpos]; [reflexivity|].
  exfalso. unfold out_of_range in Ho. apply orb_false_iff in Ho as [_ Ho].
  apply Z.ltb_ge in Ho. lia.
Qed.

(** C6.  Text without markers, the empty text included, parses to the
    empty dict without raising, and the run (started with a delay
    [time.sleep] accepts) goes on to the merge step: it takes the lock,
    adds the empty dict for the namespace, releases the lock and
    returns. *)
Theorem no_marker_gives_empty_merge :
  (forall ns_name lock,
     stats_dict_of "" = Ok []
     /\ parse_stats "" ns_name lock
        = ([LockAcquire lock; AddResult ns_name []; LockRelease lock], Ok tt))
  /\ (forall (h : host) ns_name destination_ip start_time lock run_time
             kwargs cmd raw_stats,
        findall throughput_pattern raw_stats = [] ->
        findall timestamp_pattern raw_stats = [] ->
        build_cmd ns_name destination_ip run_time kwargs = Ok cmd ->
        h (split cmd) = Some raw_stats ->
        (0 <= start_time <= SLEEP_MAX)%Z ->
        stats_dict_of raw_stats = Ok []
        /\ parse_stats raw_stats ns_name lock
           = ([LockAcquire lock; AddResult ns_name []; LockRelease lock],
              Ok tt)
        /\ run_netperf h ns_name destination_ip start_time lock run_time
                       kwargs
           = ((delay_events start_time
                ++ [Popen (split cmd); Communicate; LockAcquire lock;
                    AddResult ns_name []; LockRelease lock])%list,
              Ok tt)).
Proof.
  split; [intros; split; reflexivity|].
  intros h ns_name destination_ip start_time lock run_time kwargs cmd
         raw_stats Hth Hts Hb Hh Hs.
  assert (Hd : stats_dict_of raw_stats = Ok []).
  { unfold stats_dict_of, throughputs_of, timestamps_of, extract_floats.
    rewrite Hth, Hts. reflexivity. }
  assert (Hp : parse_stats raw_stats ns_name lock
               = ([LockAcquire lock; AddResult ns_name []; LockRelease lock],
                  Ok tt)).
  { rewrite parse_stats_eq, Hd. reflexivity. }
  repeat split; try assumption.
  rewrite (@run_netperf_eq h _ _ _ lock _ _ _ Hb Hs). unfold after_launch.
  rewrite Hh, Hp. reflexivity.
Qed.

Lemma no_marker_gives_empty_merge_witness :
  stats_dict_of "netperf: send_omni: connect failed" = Ok []
  /\ parse_stats "netperf: send_omni: connect failed" "h1" 4
     = ([LockAcquire 4; AddResult "h1" []; LockRelease 4], Ok tt)
  /\ run_netperf (fun _ => Some "netperf: send_omni: connect failed")
                 "h1" "10.0.0.2" 0 4 10 [("testname", "UDP_STREAM")]
     = ((delay_events 0
          ++ [Popen (split "ip netns exec h1 netperf -P 0 -4 -t UDP_STREAM -F /dev/urandom -l 10 -D -0.2 -H 10.0.0.2 -- -R 1 -k THROUGHPUT");
              Communicate; LockAcquire 4; AddResult "h1" [];
              LockRelease 4])%list,
        Ok tt).
Proof.
  apply (proj2 no_marker_gives_empty_merge
           (fun _ => Some "netperf: send_omni: connect failed")
           "h1" "10.0.0.2" 0%Z 4 10%Z [("testname", "UDP_STREAM")]).
  - vm_compute. reflexivity.
  - vm_compute. reflexivity.
  - vm_compute. reflexivity.
  - reflexivity.
  - unfold SLEEP_MAX. lia.
Defined.

(** C9.  Once the command is built, a positive start delay is slept
    first and a zero delay is not slept at all; then the child is
    started and waited for; whatever follows in the trace belongs to
    parsing and merging, which therefore come after the child's exit.
    The delay is one [time.sleep] accepts: at most [SLEEP_MAX]
    seconds. *)
Theorem delay_then_blocking_run
  (h : host) (ns_name destination_ip : string) (start_time : Z) (lock : nat)
  (run_time : Z) (kwargs : Dict.t string string) (cmd : string) :
  build_cmd ns_name destination_ip run_time kwargs = Ok cmd ->
  (0 <= start_time <= SLEEP_MAX)%Z ->
  trace (run_netperf h ns_name destination_ip start_time lock run_time kwargs)
  = (delay_events start_time
       ++ Popen (split cmd) :: after_launch h cmd ns_name lock)%list
  /\ ((0 < start_time)%Z -> delay_events start_time = [Sleep start_time])
  /\ (start_time = 0%Z ->
      delay_events start_time = []
      /\ forall secs,
           ~ In (Sleep secs)
                (trace (run_netperf h ns_name destination_ip start_time lock
                                    run_time kwargs)))
  /\ (forall out, h (split cmd) = Some out ->
        after_launch h cmd ns_name lock
        = Communicate :: trace (parse_stats out ns_name lock)
        /\ Forall merge_event (trace (parse_stats out ns_name lock))).
Proof.
  intros Hb Hs.
  assert (Ht : trace (run_netperf h ns_name destination_ip start_time lock
                                  run_time kwargs)
               = (delay_events start_time
                    ++ Popen (split cmd) :: after_launch h cmd ns_name lock)%list).
  { rewrite (@run_netperf_eq h _ _ _ lock _ _ _ Hb Hs). reflexivity. }
  split; [exact Ht|]. split; [|split].
  - intros Hpos. unfold delay_events.
    destruct (Z.ltb_spec 0 start_time); [reflexivity|lia].
  - intros ->. split; [reflexivity|].
    intros secs Hin. rewrite Ht in Hin. cbn in Hin.
    destruct Hin as [Hin|Hin]; [discriminate|].
    unfold after_launch in Hin. destruct (h (split cmd)) as [out|]; [|exact Hin].
    destruct Hin as [Hin|Hin]; [discriminate|].
    pose proof (parse_stats_merge_events out ns_name lock) as Hall.
    rewrite Forall_forall in Hall. exact (Hall _ Hin).
  - intros out Hout. unfold after_launch. rewrite Hout.
    split; [reflexivity|apply parse_stats_merge_events].
Qed.

Lemma delay_then_blocking_run_witness :
  trace (run_netperf
           (fun _ => Some "NETPERF_INTERIM_RESULT[0]=9.5 NETPERF_ENDING[0]=0.2")
           "h1" "10.0.0.2" 3 4 10 [("testname", "UDP_STREAM")])
  = [Sleep 3;
     Popen ["ip"; "netns"; "exec"; "h1"; "netperf"; "-P"; "0"; "-4"; "-t";
            "UDP_STREAM"; "-F"; "/dev/urandom"; "-l"; "10"; "-D"; "-0.2";
            "-H"; "10.0.0.2"; "--"; "-R"; "1"; "-k"; "THROUGHPUT"];
     Communicate; LockAcquire 4;
     AddResult "h1" [(float_lit "0.2", float_lit "9.5")];
     LockRelease 4].
Proof.
  rewrite (proj1 (@delay_then_blocking_run
             (fun _ => Some "NETPERF_INTERIM_RESULT[0]=9.5 NETPERF_ENDING[0]=0.2")
             "h1" "10.0.0.2" 3%Z 4 10%Z [("testname", "UDP_STREAM")]
             "ip netns exec h1 netperf -P 0 -4 -t UDP_STREAM -F /dev/urandom -l 10 -D -0.2 -H 10.0.0.2 -- -R 1 -k THROUGHPUT"
             eq_refl ltac:(unfold SLEEP_MAX; lia))).
  vm_compute. reflexivity.
Defined.

(* ================================================================== *)
(** ** Integer payloads *)

Section IntegerPayload.
Variables idx payload rest : string.
Hypothesis idx_digits : idx <> "" /\ all_digits idx = true.
Hypothesis payload_digits : payload <> "" /\ all_digits payload = true.
Hypothesis rest_no_fraction : no_fraction rest = true.

Local Abbreviation body := (idx ++ "]=" ++ payload).

Lemma body_no_N : no_char "N" body.
Proof.
  destruct idx_digits as [_ Hi], payload_digits as [_ Hp].
  apply no_char_append; [apply all_digits_no_char; auto|].
  repeat (split; [discriminate|]). apply all_digits_no_char; auto.
Qed.

Lemma interim_no_throughput_match :
  re_match throughput_pattern
           ("NETPERF_INTERIM_RESULT[" ++ idx ++ "]=" ++ payload ++ rest)
  = None.
Proof.
  destruct idx_digits, payload_digits.
  apply (@integer_marker_no_match "N" "ETPERF_INTERIM_RESULT");
    auto; discriminate.
Qed.

Lemma ending_no_timestamp_match :
  re_match timestamp_pattern
           ("NETPERF_ENDING[" ++ idx ++ "]=" ++ payload ++ rest)
  = None.
Proof.
  destruct idx_digits, payload_digits.
  apply (@integer_marker_no_match "N" "ETPERF_ENDING");
    auto; discriminate.
Qed.

Lemma body_assoc (pre : string) :
  pre ++ idx ++ "]=" ++ payload ++ rest = (pre ++ body) ++ rest.
Proof. rewrite !append_assoc. reflexivity. Qed.

(** No match of [re] starts anywhere in the marker when none starts
    in its name: the rest of it has no [N]. *)
Lemma marker_unmatched (re' : regex) (pre : string) :
  unmatched (Lit "N" :: re') pre (body ++ rest) ->
  unmatched (Lit "N" :: re') (pre ++ body) rest.
Proof.
  intros H. apply unmatched_append; [exact H|].
  apply unmatched_no_char, body_no_N.
Qed.

Lemma interim_unmatched_throughput :
  unmatched throughput_pattern ("NETPERF_INTERIM_RESULT[" ++ body) rest.
Proof.
  apply (@marker_unmatched (tl throughput_pattern)).
  split.
  - rewrite <- interim_no_throughput_match.
    rewrite !append_assoc. reflexivity.
  - repeat split; reflexivity.
Qed.

Lemma interim_unmatched_timestamp :
  unmatched timestamp_pattern ("NETPERF_INTERIM_RESULT[" ++ body) rest.
Proof.
  apply (@marker_unmatched (tl timestamp_pattern)).
  repeat split; reflexivity.
Qed.

Lemma ending_unmatched_timestamp :
  unmatched timestamp_pattern ("NETPERF_ENDING[" ++ body) rest.
Proof.
  apply (@marker_unmatched (tl timestamp_pattern)).
  split.
  - rewrite <- ending_no_timestamp_match.
    rewrite !append_assoc. reflexivity.
  - repeat split; reflexivity.
Qed.

Lemma ending_unmatched_throughput :
  unmatched throughput_pattern ("NETPERF_ENDING[" ++ body) rest.
Proof.
  apply (@marker_unmatched (tl throughput_pattern)).
  repeat split; reflexivity.
Qed.

Lemma stats_dict_of_unmatched (marker : string) :
  unmatched throughput_pattern marker rest ->
  unmatched timestamp_pattern marker rest ->
  stats_dict_of (marker ++ rest) = stats_dict_of rest.
Proof.
  intros Hth Hts.
  unfold stats_dict_of, throughputs_of, timestamps_of, extract_floats, findall.
  rewrite (findall_unmatched _ _ _ Hth), (findall_unmatched _ _ _ Hts).
  reflexivity.
Qed.
End IntegerPayload.

(** C10.  A marker whose payload is an integer (digits that are not
    followed by a dot and a digit) is not matched by its pattern, and
    no match of either pattern starts anywhere inside it, whatever the
    text before it: it yields no sample, and a text that begins with
    it is parsed as if it began after it. *)
Theorem integer_payload_not_matched (idx payload rest : string) :
  idx <> "" -> all_digits idx = true ->
  payload <> "" -> all_digits payload = true ->
  no_fraction rest = true ->
  let interim := "NETPERF_INTERIM_RESULT[" ++ idx ++ "]=" ++ payload in
  let ending := "NETPERF_ENDING[" ++ idx ++ "]=" ++ payload in
  re_match throughput_pattern (interim ++ rest) = None
  /\ re_match timestamp_pattern (ending ++ rest) = None
  /\ (unmatched throughput_pattern interim rest
      /\ unmatched timestamp_pattern interim rest)
  /\ (unmatched throughput_pattern ending rest
      /\ unmatched timestamp_pattern ending rest)
  /\ stats_dict_of (interim ++ rest) = stats_dict_of rest
  /\ stats_dict_of (ending ++ rest) = stats_dict_of rest.
Proof.
  intros Hi Hid Hp Hpd Hrest interim ending.
  pose proof (@interim_unmatched_throughput idx payload rest
                (conj Hi Hid) (conj Hp Hpd) Hrest) as H1.
  pose proof (@interim_unmatched_timestamp idx payload rest
                (conj Hi Hid) (conj Hp Hpd)) as H2.
  pose proof (@ending_unmatched_throughput idx payload rest
                (conj Hi Hid) (conj Hp Hpd)) as H3.
  pose proof (@ending_unmatched_timestamp idx payload rest
                (conj Hi Hid) (conj Hp Hpd) Hrest) as H4.
  split; [exact (proj1 H1)|]. split; [exact (proj1 H4)|].
  split; [split; assumption|]. split; [split; assumption|].
  split; apply stats_dict_of_unmatched; assumption.
Qed.

Lemma integer_payload_not_matched_witness :
  re_match throughput_pattern
           ("NETPERF_INTERIM_RESULT[0]=12" ++ " NETPERF_ENDING[0]=3") = None
  /\ re_match timestamp_pattern
              ("NETPERF_ENDING[0]=12" ++ " NETPERF_ENDING[0]=3") = None
  /\ stats_dict_of ("NETPERF_INTERIM_RESULT[0]=12" ++ " NETPERF_ENDING[0]=3")
     = stats_dict_of " NETPERF_ENDING[0]=3"
  /\ stats_dict_of ("NETPERF_ENDING[0]=12" ++ " NETPERF_ENDING[0]=3")
     = stats_dict_of " NETPERF_ENDING[0]=3".
Proof.
  destruct (@integer_payload_not_matched "0" "12" " NETPERF_ENDING[0]=3")
    as (H1 & H2 & _ & _ & H3 & H4).
  - discriminate.
  - reflexivity.
  - discriminate.
  - reflexivity.
  - reflexivity.
  - repeat split; assumption.
Defined.

Example integer_markers_give_no_sample :
  stats_dict_of "NETPERF_INTERIM_RESULT[0]=12 NETPERF_ENDING[0]=3" = Ok [].
Proof. vm_compute. reflexivity. Qed.

(* ================================================================== *)
(** ** Concurrent merges *)

Lemma contribution_quiet (pre p : list event) :
  Forall quiet pre -> contribution (pre ++ p)%list = contribution p.
Proof.
  induction 1 as [|e pre He _ IH]; [reflexivity|].
  destruct e; simpl in *; auto; contradiction.
Qed.

(** A run's events: some that leave the shared world alone, then the
    merge step if the run gets that far, and nothing after it. *)
Lemma program_shape (h : host) (lock : nat) (rq : request) :
  exists pre,
    Forall quiet pre
    /\ program h lock rq
       = (pre ++ crit lock (contribution (program h lock rq)))%list.
Proof.
  unfold program.
  destruct (build_cmd (rq_ns_name rq) (rq_destination_ip rq) (rq_run_time rq)
                      (rq_kwargs rq)) as [cmd|e] eqn:Hb.
  - destruct (Z_le_gt_dec 0 (rq_start_time rq)) as [Hpos|Hneg];
      [destruct (Z_le_gt_dec (rq_start_time rq) SLEEP_MAX) as [Hmax|Hbig]|].
    2,3: exists []; split; [constructor|];
         rewrite (@run_netperf_refused h _ _ _ lock _ _ _ Hb) by lia;
         reflexivity.
    + rewrite (@run_netperf_eq h _ _ _ lock _ _ _ Hb (conj Hpos Hmax)).
      cbn [trace fst]. unfold after_launch.
      assert (Hq : Forall quiet (delay_events (rq_start_time rq))).
      { unfold delay_events. destruct (0 <? rq_start_time rq)%Z;
          repeat constructor. }
      destruct (h (split cmd)) as [out|].
      * rewrite parse_stats_eq.
        destruct (stats_dict_of out) as [d|e]; cbn [trace fst].
        -- exists (delay_events (rq_start_time rq)
                     ++ [Popen (split cmd); Communicate])%list.
           split; [apply Forall_app; split;
                   [exact Hq|repeat constructor]|].
           rewrite <- app_assoc. cbn [app].
           rewrite contribution_quiet by exact Hq. reflexivity.
        -- exists (delay_events (rq_start_time rq)
                     ++ [Popen (split cmd); Communicate])%list.
           split; [apply Forall_app; split;
                   [exact Hq|repeat constructor]|].
           rewrite <- app_assoc. cbn [app].
           rewrite contribution_quiet by exact Hq. cbn.
           rewrite ?app_nil_r. reflexivity.
      * exists (delay_events (rq_start_time rq) ++ [Popen (split cmd)])%list.
        split; [apply Forall_app; split; [exact Hq|repeat constructor]|].
        rewrite <- app_assoc. cbn [app].
        rewrite contribution_quiet by exact Hq. cbn.
        rewrite ?app_nil_r. reflexivity.
  - exists []. split; [constructor|].
    unfold run_netperf. rewrite Hb. reflexivity.
Qed.

Lemma nth_map_error {A B} (f : A -> B) (xs : list A) (d : B) (i : nat) :
  nth i (map f xs) d
  = match nth_error xs i with Some x => f x | None => d end.
Proof.
  revert i. induction xs as [|x xs IH]; intros [|i]; cbn; auto.
Qed.

Section MergeSerialised.
Variable Store : Type.
Variable add_result : string -> stats -> Store -> Store.
Variable h : host.
Variable lock : nat.
Variable rqs : list request.
Variable s0 : Store.

Local Abbreviation inv := (invariant add_result h lock rqs s0).
Local Abbreviation contrib := (contrib_of h lock rqs).

Lemma update_eq {A} (f : nat -> A) i a : update f i a i = a.
Proof. unfold update. rewrite Nat.eqb_refl. reflexivity. Qed.

Lemma update_neq {A} (f : nat -> A) i j a :
  j <> i -> update f i a j = f j.
Proof.
  intros H. unfold update. destruct (Nat.eqb_spec j i); congruence.
Qed.

Lemma invariant_init : inv (init h lock rqs s0) [].
Proof.
  split; [constructor|]. split; [reflexivity|].
  intros i. unfold contrib_of.
  destruct (nth_error rqs i) as [rq|] eqn:Hi.
  - destruct (program_shape h lock rq) as (pre & Hq & Hp).
    apply Before with (pre := pre); cbn [init threads holder];
      rewrite ?nth_map_error, ?Hi; cbn; auto.
    discriminate.
  - apply Before with (pre := []); cbn [init threads holder];
      rewrite ?nth_map_error, ?Hi; cbn; auto.
    discriminate.
Qed.

(** A thread that does not hold the lock is not affected by what the
    holder does. *)
Lemma phase_outside (w w' : world Store) (order order' : list nat) j c :
  threads w' j = threads w j ->
  holder w lock <> Some j ->
  holder w' lock <> Some j ->
  (In j order' <-> In j order) ->
  phase lock w order j c -> phase lock w' order' j c.
Proof.
  intros Ht Hh Hh' Ho Hp.
  destruct Hp as [pre Hq Htd Hr Hn _|ns d _ _ _ Hhj _|ns d _ _ _ Hhj _
                 |Hc Htd Hr _ Hin]; try contradiction.
  - apply Before with (pre := pre); rewrite ?Ht; tauto.
  - apply Finished; rewrite ?Ht; tauto.
Qed.

(** Nothing a thread sees has changed. *)
Lemma phase_frame (w w' : world Store) (order : list nat) j c :
  threads w' j = threads w j ->
  holder w' lock = holder w lock ->
  store w' = store w ->
  phase lock w order j c -> phase lock w' order j c.
Proof.
  intros Ht Hh Hs Hp.
  destruct Hp as [pre Hq Htd Hr Hn Hhj|ns d Hc Htd Hr Hhj Hn
                 |ns d Hc Htd Hr Hhj Hin|Hc Htd Hr Hhj Hin].
  - apply Before with (pre := pre); rewrite ?Ht, ?Hh; assumption.
  - apply Holding with (ns := ns) (d := d);
      rewrite ?Ht, ?Hh, ?Hs; assumption.
  - apply Written with (ns := ns) (d := d);
      rewrite ?Ht, ?Hh; assumption.
  - apply Finished; rewrite ?Ht, ?Hh; assumption.
Qed.

Lemma merged_in_order_snoc order i ns d :
  contrib i = Some (ns, d) ->
  merged_in_order add_result h lock rqs s0 (order ++ [i])
  = add_result ns d (merged_in_order add_result h lock rqs s0 order).
Proof.
  intros Hc. unfold merged_in_order. rewrite fold_left_app. cbn.
  unfold merge_one. rewrite Hc. reflexivity.
Qed.

(** Every move keeps the invariant; the run that writes its samples
    is appended to the order. *)
Lemma invariant_step (w w' : world Store) (order : list nat) (i : nat) :
  inv w order -> step add_result w i = Some w' ->
  exists order', inv w' order'.
Proof.
  intros (Hnd & Hst & Hph) Hstep. unfold step in Hstep.
  destruct (Hph i) as [pre Hq Htd Hr Hn Hhi|ns d Hc Htd Hr Hhi Hn
                      |ns d Hc Htd Hr Hhi Hin|Hc Htd Hr Hhi Hin];
    rewrite Htd in Hstep.
  - (* before the merge step *)
    destruct pre as [|e pre].
    + destruct (contrib i) as [[ns d]|] eqn:Hc; cbn in Hstep;
        [|discriminate].
      destruct (holder w lock) eqn:Hfree; [discriminate|].
      inversion Hstep; subst w'; clear Hstep.
      exists order. split; [exact Hnd|]. split; [exact Hst|].
      intros j. destruct (Nat.eq_dec j i) as [->|Hji].
      * rewrite Hc. apply Holding with (ns := ns) (d := d); cbn;
          rewrite ?update_eq; cbn; auto.
      * apply phase_outside with (w := w) (order := order); cbn;
          rewrite ?update_eq, ?update_neq by exact Hji; auto.
        -- congruence.
        -- congruence.
        -- tauto.
    + inversion Hq as [|e' pre' He Hq']; subst.
      assert (Hw' : w' = {| holder := holder w; store := store w;
                            threads := update (threads w) i
                              {| todo := (pre ++ crit lock (contrib i))%list;
                                 reading := reading (threads w i) |} |}).
      { destruct e; cbn in He; try contradiction; cbn in Hstep;
          inversion Hstep; reflexivity. }
      subst w'. clear Hstep.
      exists order. split; [exact Hnd|]. split; [exact Hst|].
      intros j. destruct (Nat.eq_dec j i) as [->|Hji].
      * apply Before with (pre := pre); cbn; rewrite ?update_eq; cbn; auto.
      * apply phase_frame with (w := w); cbn;
          rewrite ?update_neq by exact Hji; auto.
  - (* holding the lock, samples not yet written *)
    destruct Hr as [Hr|Hr]; rewrite Hr in Hstep;
      inversion Hstep; subst w'; clear Hstep.
    + exists order. split; [exact Hnd|]. split; [exact Hst|].
      intros j. destruct (Nat.eq_dec j i) as [->|Hji].
      * rewrite Hc. apply Holding with (ns := ns) (d := d); cbn;
          rewrite ?update_eq; cbn; auto.
      * apply phase_frame with (w := w); cbn;
          rewrite ?update_neq by exact Hji; auto.
    + exists (order ++ [i])%list. split; [|split].
      * apply NoDup_app; repeat split; auto.
        -- constructor; [intros []|constructor].
        -- intros x Hx [<-|[]]. contradiction.
      * cbn. rewrite (@merged_in_order_snoc order i ns d Hc), <- Hst. reflexivity.
      * intros j. destruct (Nat.eq_dec j i) as [->|Hji].
        -- rewrite Hc. apply Written with (ns := ns) (d := d); cbn;
             rewrite ?update_eq; cbn; auto.
           apply in_or_app. right. left. reflexivity.
        -- apply phase_outside with (w := w) (order := order); cbn;
             rewrite ?update_neq by exact Hji; auto.
           ++ congruence.
           ++ congruence.
           ++ rewrite in_app_iff. cbn. intuition congruence.
  - (* samples written, lock still held *)
    rewrite Hhi in Hstep. inversion Hstep; subst w'; clear Hstep.
    exists order. split; [exact Hnd|]. split; [exact Hst|].
    intros j. destruct (Nat.eq_dec j i) as [->|Hji].
    + apply Finished; cbn; rewrite ?update_eq; cbn; auto.
      * congruence.
      * discriminate.
    + apply phase_outside with (w := w) (order := order); cbn;
        rewrite ?update_eq, ?update_neq by exact Hji; auto.
      * congruence.
      * discriminate.
      * tauto.
  - discriminate.
Qed.

Lemma invariant_run (schedule : list nat) :
  forall (w w' : world Store) order,
    inv w order -> run add_result w schedule = Some w' ->
    exists order', inv w' order'.
Proof.
  induction schedule as [|i schedule IH]; intros w w' order Hi Hrun.
  - inversion Hrun; subst. eauto.
  - cbn in Hrun. destruct (step add_result w i) as [w1|] eqn:Hs;
      [|discriminate].
    destruct (@invariant_step w w1 order i Hi Hs) as [order1 Hi1].
    exact (IH _ _ _ Hi1 Hrun).
Qed.
End MergeSerialised.

Lemma crit_contribution (lock : nat) (c : option (string * stats)) :
  contribution (crit lock c) = c.
Proof. destruct c as [[ns d]|]; reflexivity. Qed.

Lemma in_merge_quiet_crit (lock : nat) (pre : list event) c :
  Forall quiet pre -> in_merge (pre ++ crit lock c)%list = false.
Proof.
  intros Hq. destruct Hq as [|e pre He _].
  - destruct c as [[ns d]|]; reflexivity.
  - destruct e; cbn in *; auto; contradiction.
Qed.

(** C8.  The merge step of [parse_stats] is: acquire the lock, add the
    samples, release the lock.  However the runs of an experiment that
    share the lock are interleaved, at most one of them is between its
    acquire and its release; the store an [add_result] writes back is
    computed from the store as it still is; and the store at any
    moment is the one obtained by letting the runs that have merged do
    so one at a time, each exactly once.  No update is lost. *)
Theorem merge_is_serialised
  (Store : Type) (add_result : string -> stats -> Store -> Store)
  (h : host) (lock : nat) (rqs : list request) (s0 : Store)
  (schedule : list nat) (w : world Store) :
  run add_result (init h lock rqs s0) schedule = Some w ->
  (forall raw_stats ns_name d,
     stats_dict_of raw_stats = Ok d ->
     parse_stats raw_stats ns_name lock
     = ([LockAcquire lock; AddResult ns_name d; LockRelease lock], Ok tt))
  /\ (forall i j,
        in_merge (todo (threads w i)) = true ->
        in_merge (todo (threads w j)) = true -> i = j)
  /\ (forall i s, reading (threads w i) = Some s -> s = store w)
  /\ exists order,
       NoDup order
       /\ (forall i, In i order <-> has_merged h lock rqs w i)
       /\ store w = merged_in_order add_result h lock rqs s0 order.
Proof.
  intros Hrun.
  destruct (@invariant_run Store add_result h lock rqs s0 schedule _ _ []
              (invariant_init add_result h lock rqs s0) Hrun)
    as (order & Hnd & Hst & Hph).
  assert (Hholder : forall i, in_merge (todo (threads w i)) = true ->
                              holder w lock = Some i).
  { intros i Hin.
    destruct (Hph i) as [pre Hq Htd _ _ _|ns d _ _ _ Hhi _|ns d _ _ _ Hhi _
                        |_ Htd _ _ _]; auto.
    - rewrite Htd, in_merge_quiet_crit in Hin by exact Hq. discriminate.
    - rewrite Htd in Hin. discriminate. }
  split; [|split; [|split]].
  - intros raw_stats ns_name d Hd. rewrite parse_stats_eq, Hd. reflexivity.
  - intros i j Hi Hj. apply Hholder in Hi, Hj. congruence.
  - intros i s Hs.
    destruct (Hph i) as [pre _ _ Hr _ _|ns d _ _ [Hr|Hr] _ _|ns d _ _ Hr _ _
                        |_ _ Hr _ _]; congruence.
  - exists order. split; [exact Hnd|]. split; [|exact Hst].
    intros i. unfold has_merged.
    destruct (Hph i) as [pre Hq Htd _ Hn _|ns d Hc Htd _ _ Hn
                        |ns d Hc Htd _ _ Hin|Hc Htd _ _ Hin]; rewrite Htd.
    + rewrite contribution_quiet, crit_contribution by exact Hq.
      split; [contradiction|]. intros [Hc Hc']. contradiction.
    + split; [contradiction|]. intros [_ Hc']. discriminate.
    + rewrite Hc. split; [|auto]. intros _. split; [discriminate|reflexivity].
    + split; [|auto]. intros _. split; [exact Hc|reflexivity].
Qed.

Lemma merge_is_serialised_witness :
  exists w,
    run log_call (init example_host 1 example_requests [])
        example_schedule = Some w
    /\ (forall i j,
          in_merge (todo (threads w i)) = true ->
          in_merge (todo (threads w j)) = true -> i = j)
    /\ (forall i s, reading (threads w i) = Some s -> s = store w)
    /\ exists order,
         NoDup order
         /\ (forall i, In i order <-> has_merged example_host 1
                                                 example_requests w i)
         /\ store w = merged_in_order log_call example_host 1
                                      example_requests [] order.
Proof.
  assert (Hsome : exists w,
             run log_call (init example_host 1 example_requests [])
                 example_schedule = Some w).
  { vm_compute. eexists. reflexivity. }
  destruct Hsome as [w Hrun]. exists w. split; [exact Hrun|].
  exact (proj2 (@merge_is_serialised _ log_call example_host 1
                  example_requests [] example_schedule w Hrun)).
Defined.

(** In that schedule both contributions reach the store. *)
Example both_contributions_stored :
  option_map (@store call_log)
    (run log_call (init example_host 1 example_requests [])
         example_schedule)
  = Some [("h1", [(float_lit "0.2", float_lit "9.5")]);
          ("h1", [(float_lit "0.4", float_lit "7.25")])].
Proof. vm_compute. reflexivity. Qed.

(** Run 1 cannot take the lock while run 0 holds it. *)
Example second_acquire_waits :
  run log_call (init example_host 1 example_requests [])
      [0; 1; 0; 0; 1; 1] = None.
Proof. vm_compute. reflexivity. Qed.

(** With a lock per run nothing keeps the two merges apart: both read
    the empty store, and the second write-back drops the first run's
    samples. *)
Example lost_update_without_shared_lock :
  option_map (@store call_log)
    (run log_call unshared_locks_world [0; 1; 0; 1; 0; 1; 0; 1; 0; 1; 0; 1])
  = Some [("h1", [(float_lit "0.4", float_lit "7.25")])].
Proof. vm_compute. reflexivity. Qed.

(* ================================================================== *)
(** ** Argument vectors *)

Lemma rev_string_twice (w a b : string) :
  rev_string a (rev_string b w) = rev_string (w ++ a) b.
Proof.
  revert a b. induction w as [|c w IH]; intros a b; simpl.
  - reflexivity.
  - rewrite IH. reflexivity.
Qed.

Lemma rev_string_involutive (w : string) :
  rev_string "" (rev_string "" w) = w.
Proof. rewrite rev_string_twice. simpl. apply append_nil_r. Qed.

Lemma rev_string_nonempty (w acc : string) :
  w <> "" -> rev_string acc w <> "".
Proof.
  intros Hw. destruct w as [|c w]; [contradiction|]. simpl.
  clear Hw. revert c acc. induction w as [|c' w IH]; intros c acc; simpl.
  - discriminate.
  - apply IH.
Qed.

Lemma split_from_word (w cur s : string) :
  no_space w = true ->
  split_from cur (w ++ s) = split_from (rev_string cur w) s.
Proof.
  revert cur. induction w as [|c w IH]; intros cur H; simpl in *.
  - reflexivity.
  - apply andb_prop in H as [Hc Hw]. apply negb_true_iff in Hc.
    rewrite Hc. apply IH, Hw.
Qed.

Lemma split_from_blank (cur s : string) :
  cur <> "" ->
  split_from cur (String " " s) = rev_string "" cur :: split_from "" s.
Proof. intros H. destruct cur; [contradiction|reflexivity]. Qed.

Lemma split_from_end (cur : string) :
  cur <> "" -> split_from cur "" = [rev_string "" cur].
Proof. intros H. destruct cur; [contradiction|reflexivity]. Qed.

(** Words joined by single blanks come apart again. *)
Lemma split_join (ws : list string) :
  Forall word ws -> split (join " " ws) = ws.
Proof.
  unfold split. induction 1 as [|w ws [Hne Hw] Hws IH]; [reflexivity|].
  destruct ws as [|w2 ws].
  - cbn [join]. rewrite <- (append_nil_r w) at 1.
    rewrite split_from_word by exact Hw.
    rewrite split_from_end by (apply rev_string_nonempty; exact Hne).
    rewrite rev_string_involutive. reflexivity.
  - change (join " " (w :: w2 :: ws))
      with (w ++ String " " (join " " (w2 :: ws))).
    rewrite split_from_word by exact Hw.
    rewrite split_from_blank by (apply rev_string_nonempty; exact Hne).
    rewrite rev_string_involutive, IH. reflexivity.
Qed.

Lemma digit_char_no_space (d : nat) :
  d < 10 -> is_space (digit_char d) = false.
Proof.
  intros H. do 10 (destruct d as [|d]; [reflexivity|]). lia.
Qed.

Lemma pos_digits_word (fuel : nat) :
  forall n acc,
    no_space acc = true ->
    (fuel <> 0 \/ acc <> "") ->
    word (pos_digits fuel n acc).
Proof.
  induction fuel as [|fuel IH]; intros n acc Hacc Hne; cbn [pos_digits].
  - split; [tauto|exact Hacc].
  - assert (Hd : no_space (String (digit_char (N.to_nat (n mod 10))) acc)
                 = true).
    { cbn [no_space]. rewrite digit_char_no_space, Hacc; [reflexivity|].
      pose proof (N.mod_lt n 10). lia. }
    destruct (n <? 10)%N.
    + split; [discriminate|exact Hd].
    + apply IH; [exact Hd|right; discriminate].
Qed.

Lemma str_of_int_word (z : Z) : word (str_of_int z).
Proof.
  destruct z as [|p|p]; cbn [str_of_int].
  - split; [discriminate|reflexivity].
  - apply pos_digits_word; [reflexivity|left; discriminate].
  - split; [discriminate|].
    change (no_space (String "-" (str_of_N (N.pos p))) = true).
    cbn [no_space]. change (negb (is_space "-")) with true. cbn [andb].
    apply (@pos_digits_word _ (N.pos p) ""); [reflexivity|].
    left; discriminate.
Qed.

(** X1.  [run_netserver] starts [ip netns exec <ns> netserver] and
    returns without waiting for it: for a namespace name that is one
    word, the child gets exactly these five arguments, and the only
    event is the start of the child; when the child cannot be started
    the exception reaches the caller. *)
Theorem netserver_started_not_awaited (h : host) (ns_name : string) :
  word ns_name ->
  let argv := ["ip"; "netns"; "exec"; ns_name; "netserver"] in
  trace (run_netserver h ns_name) = [Popen argv]
  /\ outcome (run_netserver h ns_name)
     = match h argv with
       | Some _ => Ok tt
       | None => Raise OSError
       end.
Proof.
  intros Hw argv.
  assert (Hs : split ("ip netns exec " ++ ns_name ++ " netserver") = argv).
  { change ("ip netns exec " ++ ns_name ++ " netserver")
      with (join " " argv).
    apply split_join. unfold argv.
    repeat (constructor; [first [exact Hw | split; [discriminate|reflexivity]]|]).
    constructor. }
  unfold run_netserver, run_test_commands. rewrite Hs.
  destruct (h argv); split; reflexivity.
Qed.

Lemma netserver_started_not_awaited_witness :
  trace (run_netserver (fun _ => Some "") "h2")
  = [Popen ["ip"; "netns"; "exec"; "h2"; "netserver"]]
  /\ outcome (run_netserver (fun _ => Some "") "h2") = Ok tt.
Proof.
  apply (@netserver_started_not_awaited (fun _ => Some "") "h2").
  split; [discriminate|reflexivity].
Defined.

(** A name with a blank in it does not stay one argument. *)
Example netserver_name_with_blank :
  trace (run_netserver (fun _ => Some "") "my ns")
  = [Popen ["ip"; "netns"; "exec"; "my"; "ns"; "netserver"]].
Proof. reflexivity. Qed.

(* ================================================================== *)
(** ** What the child is started with, and how a run can end *)

Lemma build_cmd_udp (ns_name destination_ip : string) (run_time : Z)
  (kwargs : Dict.t string string) :
  Dict.get String.eqb kwargs "testname" = Some "UDP_STREAM" ->
  build_cmd ns_name destination_ip run_time kwargs
  = Ok ("ip netns exec " ++ ns_name ++ " netperf "
          ++ join " " (base_options run_time "UDP_STREAM")
          ++ " -H " ++ destination_ip ++ " -- -R 1 -k THROUGHPUT").
Proof.
  intros Hget. unfold build_cmd, lookup at 1. rewrite Hget. reflexivity.
Qed.

(** X2.  For a stream-UDP request whose namespace name and peer
    address are single words, the child is started with exactly these
    arguments, whatever else the request carries: the run time in
    decimal after [-l], the peer after [-H], and no congestion-control
    flag. *)
Theorem udp_client_argv (ns_name destination_ip : string) (run_time : Z)
  (kwargs : Dict.t string string) :
  word ns_name -> word destination_ip ->
  Dict.get String.eqb kwargs "testname" = Some "UDP_STREAM" ->
  exists cmd,
    build_cmd ns_name destination_ip run_time kwargs = Ok cmd
    /\ split cmd
       = ["ip"; "netns"; "exec"; ns_name; "netperf"; "-P"; "0"; "-4";
          "-t"; "UDP_STREAM"; "-F"; "/dev/urandom";
          "-l"; str_of_int run_time; "-D"; "-0.2";
          "-H"; destination_ip; "--"; "-R"; "1"; "-k"; "THROUGHPUT"].
Proof.
  intros Hns Hip Hget. eexists. split; [apply build_cmd_udp, Hget|].
  rewrite base_options_eq.
  pose proof (str_of_int_word run_time) as Hrt.
  generalize dependent (str_of_int run_time). intros r Hrt.
  transitivity
    (split (join " "
       ["ip"; "netns"; "exec"; ns_name; "netperf"; "-P"; "0"; "-4";
        "-t"; "UDP_STREAM"; "-F"; "/dev/urandom"; "-l"; r; "-D"; "-0.2";
        "-H"; destination_ip; "--"; "-R"; "1"; "-k"; "THROUGHPUT"])).
  - f_equal. cbn [join append]. rewrite append_assoc. reflexivity.
  - apply split_join.
    repeat (constructor;
            [first [exact Hns | exact Hip | exact Hrt
                   | split; [discriminate|reflexivity]]|]).
    constructor.
Qed.

Lemma udp_client_argv_witness :
  exists cmd,
    build_cmd "h1" "10.0.0.2" 25
              [("cong_algo", "bbr"); ("testname", "UDP_STREAM")] = Ok cmd
    /\ split cmd
       = ["ip"; "netns"; "exec"; "h1"; "netperf"; "-P"; "0"; "-4";
          "-t"; "UDP_STREAM"; "-F"; "/dev/urandom";
          "-l"; str_of_int 25; "-D"; "-0.2";
          "-H"; "10.0.0.2"; "--"; "-R"; "1"; "-k"; "THROUGHPUT"].
Proof.
  apply (@udp_client_argv "h1" "10.0.0.2" 25
           [("cong_algo", "bbr"); ("testname", "UDP_STREAM")]).
  - split; [discriminate|reflexivity].
  - split; [discriminate|reflexivity].
  - reflexivity.
Defined.

(** X3.  A request without a test type, or a stream-TCP request
    without a congestion-control algorithm, ends in [KeyError] for the
    missing key before anything is slept on, started or merged. *)
Theorem missing_key_raises
  (h : host) (ns_name destination_ip : string) (start_time : Z) (lock : nat)
  (run_time : Z) (kwargs : Dict.t string string) :
  Dict.get String.eqb kwargs "testname" = None
  \/ (Dict.get String.eqb kwargs "testname" = Some "TCP_STREAM"
      /\ Dict.get String.eqb kwargs "cong_algo" = None) ->
  exists key,
    (key = "testname" \/ key = "cong_algo")
    /\ Dict.get String.eqb kwargs key = None
    /\ run_netperf h ns_name destination_ip start_time lock run_time kwargs
       = ([], Raise (KeyError key)).
Proof.
  intros [Hn | [Ht Ha]].
  - exists "testname". split; [left; reflexivity|]. split; [exact Hn|].
    unfold run_netperf, build_cmd, lookup at 1. rewrite Hn. reflexivity.
  - exists "cong_algo". split; [right; reflexivity|]. split; [exact Ha|].
    unfold run_netperf, build_cmd, lookup at 1. rewrite Ht. cbn [rbind].
    unfold select_test_options, lookup.
    change (Dict.get String.eqb _ "testname") with (Some "-t TCP_STREAM").
    cbn [rbind]. change (String.eqb "-t TCP_STREAM" "-t TCP_STREAM") with true.
    cbn iota. rewrite Ha. reflexivity.
Qed.

Lemma missing_key_raises_witness :
  exists key,
    (key = "testname" \/ key = "cong_algo")
    /\ Dict.get String.eqb [("testname", "TCP_STREAM")] key = None
    /\ run_netperf (fun _ => Some "") "h1" "10.0.0.2" 5 0 10
                   [("testname", "TCP_STREAM")]
       = ([], Raise (KeyError key)).
Proof.
  apply (@missing_key_raises (fun _ => Some "") "h1" "10.0.0.2" 5%Z 0 10%Z
           [("testname", "TCP_STREAM")]).
  right. split; reflexivity.
Defined.

Lemma build_cmd_errors (ns_name destination_ip : string) (run_time : Z)
  (kwargs : Dict.t string string) (e : exn) :
  build_cmd ns_name destination_ip run_time kwargs = Raise e ->
  e = KeyError "testname" \/ e = KeyError "cong_algo" \/ e = AttributeError.
Proof.
  unfold build_cmd, lookup at 1.
  destruct (Dict.get String.eqb kwargs "testname") as [t|];
    cbn [rbind]; [|intros H; inversion H; auto].
  unfold select_test_options, lookup.
  change (Dict.get String.eqb
            (Dict.set String.eqb
               (Dict.set String.eqb DEFAULT_NETPERF_OPTIONS "testlen"
                         ("-l " ++ str_of_int run_time))
               "testname" ("-t " ++ t)) "testname")
    with (Some ("-t " ++ t)).
  cbn [rbind].
  destruct (String.eqb ("-t " ++ t) "-t TCP_STREAM").
  - destruct (Dict.get String.eqb kwargs "cong_algo") as [algo|];
      cbn [rbind]; intros H; inversion H; auto.
  - destruct (String.eqb ("-t " ++ t) "-t UDP_STREAM");
      cbn [rbind]; intros H; inversion H; auto.
Qed.

Lemma stats_dict_of_errors (raw_stats : string) (e : exn) :
  stats_dict_of raw_stats = Raise e -> e = IndexError.
Proof.
  intros H.
  destruct (throughputs_total raw_stats) as (ths & Hth & Hlth).
  destruct (timestamps_total raw_stats) as (tss & Hts & Hlts).
  destruct (Nat.leb_spec (List.length ths) (List.length tss)) as [Hle|Hlt].
  - rewrite (stats_dict_of_zip _ Hth Hts Hle) in H. discriminate.
  - rewrite stats_dict_of_raises in H by lia. inversion H. reflexivity.
Qed.

(** X4.  A start delay that [time.sleep] does not accept ends the run
    once the command is built, and the child is never started:
    [ValueError] for a negative delay down to [- SLEEP_MAX],
    [OverflowError] for a delay beyond [SLEEP_MAX] on either side. *)
Theorem refused_delay_raises
  (h : host) (ns_name destination_ip : string) (start_time : Z) (lock : nat)
  (run_time : Z) (kwargs : Dict.t string string) (cmd : string) :
  build_cmd ns_name destination_ip run_time kwargs = Ok cmd ->
  (start_time < 0 \/ SLEEP_MAX < start_time)%Z ->
  run_netperf h ns_name destination_ip start_time lock run_time kwargs
  = ([], Raise (if out_of_range start_time then OverflowError
                else ValueError)).
Proof.
  intros Hb Hs.
  exact (@run_netperf_refused h _ _ _ lock _ _ _ Hb Hs).
Qed.

Lemma refused_delay_raises_witness :
  run_netperf (fun _ => Some "") "h1" "10.0.0.2" (-1) 0 10
              [("testname", "UDP_STREAM")]
  = ([], Raise ValueError)
  /\ run_netperf (fun _ => Some "") "h1" "10.0.0.2" (2 ^ 64) 0 10
                 [("testname", "UDP_STREAM")]
     = ([], Raise OverflowError)
  /\ run_netperf (fun _ => Some "") "h1" "10.0.0.2" (-9223372037) 0 10
                 [("testname", "UDP_STREAM")]
     = ([], Raise OverflowError).
Proof.
  split; [|split].
  - apply (@refused_delay_raises (fun _ => Some "") "h1" "10.0.0.2" (-1)%Z 0
             10%Z [("testname", "UDP_STREAM")]
             "ip netns exec h1 netperf -P 0 -4 -t UDP_STREAM -F /dev/urandom -l 10 -D -0.2 -H 10.0.0.2 -- -R 1 -k THROUGHPUT").
    + reflexivity.
    + left. lia.
  - apply (@refused_delay_raises (fun _ => Some "") "h1" "10.0.0.2"
             (2 ^ 64)%Z 0 10%Z [("testname", "UDP_STREAM")]
             "ip netns exec h1 netperf -P 0 -4 -t UDP_STREAM -F /dev/urandom -l 10 -D -0.2 -H 10.0.0.2 -- -R 1 -k THROUGHPUT").
    + reflexivity.
    + right. unfold SLEEP_MAX. lia.
  - apply (@refused_delay_raises (fun _ => Some "") "h1" "10.0.0.2"
             (-9223372037)%Z 0 10%Z [("testname", "UDP_STREAM")]
             "ip netns exec h1 netperf -P 0 -4 -t UDP_STREAM -F /dev/urandom -l 10 -D -0.2 -H 10.0.0.2 -- -R 1 -k THROUGHPUT").
    + reflexivity.
    + left. lia.
Defined.

(** X5.  When the child cannot be started, the run ends in [OSError]
    after the start delay (one [time.sleep] accepts) and the attempt to
    start it: it does not wait, does not take the lock and adds nothing
    to the store. *)
Theorem launch_failure_raises
  (h : host) (ns_name destination_ip : string) (start_time : Z) (lock : nat)
  (run_time : Z) (kwargs : Dict.t string string) (cmd : string) :
  build_cmd ns_name destination_ip run_time kwargs = Ok cmd ->
  (0 <= start_time <= SLEEP_MAX)%Z ->
  h (split cmd) = None ->
  run_netperf h ns_name destination_ip start_time lock run_time kwargs
  = ((delay_events start_time ++ [Popen (split cmd)])%list, Raise OSError).
Proof.
  intros Hb Hs Hh. rewrite (@run_netperf_eq h _ _ _ lock _ _ _ Hb Hs).
  unfold after_launch. rewrite Hh. reflexivity.
Qed.

Lemma launch_failure_raises_witness :
  run_netperf (fun _ => None) "h1" "10.0.0.2" 2 0 10
              [("testname", "UDP_STREAM")]
  = ((delay_events 2
        ++ [Popen (split "ip netns exec h1 netperf -P 0 -4 -t UDP_STREAM -F /dev/urandom -l 10 -D -0.2 -H 10.0.0.2 -- -R 1 -k THROUGHPUT")])%list,
     Raise OSError).
Proof.
  apply (@launch_failure_raises (fun _ => None) "h1" "10.0.0.2" 2%Z 0 10%Z
           [("testname", "UDP_STREAM")]).
  - reflexivity.
  - unfold SLEEP_MAX. lia.
  - reflexivity.
Defined.

Lemma parse_stats_with_returns (raw_stats ns_name : string) (lock : nat) :
  parse_stats_with (Ok tt) raw_stats ns_name lock
  = parse_stats raw_stats ns_name lock.
Proof.
  unfold parse_stats_with, parse_stats.
  destruct (stats_dict_of raw_stats); reflexivity.
Qed.

Lemma delay_cases (start_time : Z) :
  exists t,
    Forall quiet t
    /\ ((exists e,
           (if negb (start_time =? 0)%Z then sleep start_time else ret tt)
           = (t, Raise e))
        \/ (if negb (start_time =? 0)%Z then sleep start_time else ret tt)
           = (t, Ok tt)).
Proof.
  destruct (start_time =? 0)%Z; cbn [negb].
  - exists []. split; [constructor|]. right. reflexivity.
  - unfold sleep. destruct (out_of_range start_time).
    + exists []. split; [constructor|]. left. exists OverflowError.
      reflexivity.
    + destruct (start_time <? 0)%Z.
      * exists []. split; [constructor|]. left. exists ValueError.
        reflexivity.
      * exists [Sleep start_time]. split; [repeat constructor|].
        right. reflexivity.
Qed.

(** X6.  Whether [add_result] returns or raises, a run asks for the
    lock at most once, as the last thing but the merge, and adds to the
    store only while holding it.  Before that it only sleeps, starts
    the child and waits for it; a run that ends earlier raises, and its
    trace has no lock or store event.  Once the lock is taken the run
    ends as [add_result] does: when that returns, the lock is released
    and the run returns; when it raises, the exception leaves the run
    and the lock is never released.  With a returning [add_result] the
    run is [run_netperf]. *)
Theorem run_netperf_discipline
  (added : result unit)
  (h : host) (ns_name destination_ip : string) (start_time : Z) (lock : nat)
  (run_time : Z) (kwargs : Dict.t string string) :
  run_netperf_with (Ok tt) h ns_name destination_ip start_time lock run_time
                   kwargs
  = run_netperf h ns_name destination_ip start_time lock run_time kwargs
  /\ exists pre,
       Forall quiet pre
       /\ ((exists e,
              run_netperf_with added h ns_name destination_ip start_time
                               lock run_time kwargs
              = (pre, Raise e))
           \/ (exists d,
                 run_netperf_with added h ns_name destination_ip start_time
                                  lock run_time kwargs
                 = ((pre ++ merge_events added ns_name d lock)%list,
                    added))).
Proof.
  split.
  { unfold run_netperf_with, run_netperf.
    destruct (build_cmd ns_name destination_ip run_time kwargs) as [cmd|e];
      [|reflexivity].
    cbn [lift bind app]. 
    destruct (if negb (start_time =? 0)%Z then sleep start_time else ret tt)
      as [t [[]|e]]; [|reflexivity].
    cbn [bind]. unfold run_test_commands.
    destruct (h (split cmd)) as [out|]; [|reflexivity].
    cbn -[parse_stats parse_stats_with].
    rewrite parse_stats_with_returns. reflexivity. }
  unfold run_netperf_with.
  destruct (build_cmd ns_name destination_ip run_time kwargs) as [cmd|e].
  2: { exists []. split; [constructor|]. left. exists e. reflexivity. }
  cbn [lift bind app].
  destruct (delay_cases start_time) as (t & Ht & [[e He] | He]); rewrite He.
  - exists t. split; [exact Ht|]. left. exists e. reflexivity.
  - unfold run_test_commands, parse_stats_with. cbv zeta.
    destruct (h (split cmd)) as [out|].
    + exists (t ++ [Popen (split cmd); Communicate])%list.
      split; [apply Forall_app; split; [exact Ht|repeat constructor]|].
      cbn. destruct (stats_dict_of out) as [d|e].
      * right. exists d. unfold merge_events.
        destruct added as [[]|e]; cbn; rewrite <- app_assoc; reflexivity.
      * left. exists e. cbn. rewrite ?app_nil_r. reflexivity.
    + exists (t ++ [Popen (split cmd)])%list.
      split; [apply Forall_app; split; [exact Ht|repeat constructor]|].
      left. exists OSError. reflexivity.
Qed.

(* ================================================================== *)
(** ** What the parser extracts *)

Lemma rmap_Forall2 {A B} (f : A -> result B) (R : A -> B -> Prop)
  (xs : list A) :
  (forall x, In x xs -> exists y, f x = Ok y /\ R x y) ->
  exists ys, rmap f xs = Ok ys /\ Forall2 R xs ys.
Proof.
  induction xs as [|x xs IH]; intros H; simpl.
  - exists []. split; [reflexivity|constructor].
  - destruct (H x (or_introl eq_refl)) as (y & -> & Hy).
    destruct IH as (ys & -> & Hys); [intros; apply H; right; assumption|].
    exists (y :: ys). split; [reflexivity|constructor; assumption].
Qed.

Lemma extract_floats_values (c0 : ascii) (name' raw_stats : string) :
  is_digit c0 = false -> c0 <> "."%char ->
  exists xs,
    extract_floats (marker_pattern (String c0 name'))
                   (marker_prefix_pattern (String c0 name')) raw_stats
    = Ok xs
    /\ Forall2 (marker_value (String c0 name'))
               (findall (marker_pattern (String c0 name')) raw_stats) xs.
Proof.
  intros Hd Hdot. apply rmap_Forall2. intros stat Hin.
  apply findall_from_matches in Hin as (s' & r & Hm).
  apply marker_match_shape in Hm
    as (idx & ip & fp & -> & [Hi Hid] & [Hp Hpd] & [Hf Hfd]).
  rewrite marker_payload by assumption.
  rewrite float_of_decimal by assumption.
  eexists. split; [reflexivity|].
  exists idx, ip, fp. unfold digits, marker_text, decimal_value. auto 10.
Qed.

(** X7.  The conversions to [float] never raise: whatever the text,
    every match of either pattern is a marker with a [digits.digits]
    payload, deleting the marker's prefix leaves exactly that payload,
    and the i-th value of each list is the float the i-th match's
    payload denotes. *)
Theorem conversions_never_raise (raw_stats : string) :
  exists throughputs timestamps,
    throughputs_of raw_stats = Ok throughputs
    /\ timestamps_of raw_stats = Ok timestamps
    /\ Forall2 (marker_value "NETPERF_INTERIM_RESULT")
               (findall throughput_pattern raw_stats) throughputs
    /\ Forall2 (marker_value "NETPERF_ENDING")
               (findall timestamp_pattern raw_stats) timestamps.
Proof.
  destruct (@extract_floats_values "N" "ETPERF_INTERIM_RESULT" raw_stats)
    as (ths & Hth & Hfth); [reflexivity|discriminate|].
  destruct (@extract_floats_values "N" "ETPERF_ENDING" raw_stats)
    as (tss & Hts & Hfts); [reflexivity|discriminate|].
  exists ths, tss. auto.
Qed.

Section DictMore.
Variables K V : Type.
Variable eqb : K -> K -> bool.
Hypothesis eqb_spec : forall x y, reflect (x = y) (eqb x y).

Local Abbreviation dset := (Dict.set eqb).
Local Abbreviation dfold := (fold_left (fun (d : Dict.t K V) kv =>
                                          Dict.set eqb d (fst kv) (snd kv))).

Lemma set_entries (d : Dict.t K V) k v kv :
  In kv (dset d k v) -> kv = (k, v) \/ In kv d.
Proof.
  induction d as [|[k' v'] d IH]; simpl.
  - intros [<-|[]]. auto.
  - destruct (eqb_spec k' k) as [->|Hne]; simpl.
    + intros [<-|H]; auto.
    + intros [<-|H]; auto. destruct (IH H); auto.
Qed.

Lemma fold_entries (kvs : list (K * V)) :
  forall d kv, In kv (dfold kvs d) -> In kv kvs \/ In kv d.
Proof.
  induction kvs as [|[k v] kvs IH]; simpl; intros d kv H; [auto|].
  destruct (IH _ _ H) as [H1|H1]; [auto|].
  destruct (set_entries _ _ _ _ H1) as [->|H2]; auto.
Qed.

Lemma set_length (d : Dict.t K V) k v :
  List.length (dset d k v) <= S (List.length d).
Proof.
  induction d as [|[k' v'] d IH]; simpl; [lia|].
  destruct (eqb k' k); simpl; lia.
Qed.

Lemma fold_length (kvs : list (K * V)) :
  forall d, List.length (dfold kvs d) <= List.length d + List.length kvs.
Proof.
  induction kvs as [|[k v] kvs IH]; simpl; intros d; [lia|].
  specialize (IH (dset d k v)). pose proof (set_length d k v). lia.
Qed.

Lemma fold_keys_in (kvs : list (K * V)) :
  forall d k,
    In k (Dict.keys (dfold kvs d)) <-> In k (map fst kvs) \/ In k (Dict.keys d).
Proof.
  induction kvs as [|[k' v'] kvs IH]; simpl; intros d k; [tauto|].
  rewrite IH, (@keys_set_in _ _ _ eqb_spec). intuition.
Qed.

Lemma set_fresh (d : Dict.t K V) k v :
  ~ In k (Dict.keys d) -> dset d k v = (d ++ [(k, v)])%list.
Proof.
  induction d as [|[k' v'] d IH]; simpl; intros H; [reflexivity|].
  destruct (eqb_spec k' k) as [->|Hne]; [tauto|].
  rewrite IH by tauto. reflexivity.
Qed.

(** Assigning pairwise distinct keys keeps every pair, in order. *)
Lemma fold_fresh (kvs : list (K * V)) :
  forall d,
    NoDup (Dict.keys d ++ map fst kvs) ->
    dfold kvs d = (d ++ kvs)%list.
Proof.
  induction kvs as [|[k v] kvs IH]; simpl; intros d H.
  - rewrite app_nil_r. reflexivity.
  - rewrite set_fresh.
    + rewrite IH; [rewrite <- app_assoc; reflexivity|].
      unfold Dict.keys in *. rewrite map_app, <- app_assoc. exact H.
    + apply NoDup_remove_2 in H. intros Hin. apply H.
      apply in_or_app. left. exact Hin.
Qed.
End DictMore.

Lemma combine_keys {A B} (xs : list A) (ys : list B) :
  map fst (combine xs ys) = firstn (List.length ys) xs.
Proof.
  revert ys. induction xs as [|x xs IH]; intros [|y ys]; simpl;
    try reflexivity.
  rewrite IH. reflexivity.
Qed.

(** X8.  Whenever a dict is produced, every throughput had a timestamp
    to go with; the dict holds at most one sample per throughput, each
    of its samples is one of the positional pairs, no timestamp is a key
    twice, and every paired timestamp is a key. *)
Theorem samples_are_pairs (raw_stats : string) (d : stats) :
  stats_dict_of raw_stats = Ok d ->
  exists throughputs timestamps,
    throughputs_of raw_stats = Ok throughputs
    /\ timestamps_of raw_stats = Ok timestamps
    /\ List.length throughputs <= List.length timestamps
    /\ List.length d <= List.length throughputs
    /\ NoDup (Dict.keys d)
    /\ (forall ts th,
          In (ts, th) d ->
          exists i, nth_error timestamps i = Some ts
                    /\ nth_error throughputs i = Some th)
    /\ (forall i ts,
          i < List.length throughputs ->
          nth_error timestamps i = Some ts ->
          In ts (Dict.keys d)).
Proof.
  intros Hd.
  destruct (throughputs_total raw_stats) as (ths & Hth & Hlth).
  destruct (timestamps_total raw_stats) as (tss & Hts & Hlts).
  exists ths, tss. split; [exact Hth|]. split; [exact Hts|].
  destruct (Nat.leb_spec (List.length ths) (List.length tss)) as [Hle|Hlt].
  - rewrite (stats_dict_of_zip _ Hth Hts Hle) in Hd.
    inversion Hd; subst d; clear Hd. unfold Dict.of_list.
    split; [exact Hle|]. split; [|split; [|split]].
    + pose proof (@fold_length _ _ pyfloat_eqb (combine tss ths) []) as H.
      rewrite length_combine in H. simpl in H. lia.
    + apply zip_keys_nodup.
    + intros ts th Hin.
      apply (@fold_entries _ _ _ pyfloat_eqb_spec) in Hin as [Hin|[]].
      apply In_nth_error in Hin as [i Hi].
      exists i. apply nth_error_combine_inv. exact Hi.
    + intros i ts Hi Hts'.
      apply (@fold_keys_in _ _ _ pyfloat_eqb_spec). left.
      rewrite combine_keys. apply nth_error_In with (n := i).
      rewrite nth_error_firstn.
      destruct (Nat.ltb_spec i (List.length ths)); [exact Hts'|lia].
  - rewrite stats_dict_of_raises in Hd by lia. discriminate.
Qed.

Lemma samples_are_pairs_witness :
  exists throughputs timestamps,
    throughputs_of "NETPERF_INTERIM_RESULT[0]=9.5 NETPERF_ENDING[0]=0.2 NETPERF_ENDING[1]=0.4"
    = Ok throughputs
    /\ timestamps_of "NETPERF_INTERIM_RESULT[0]=9.5 NETPERF_ENDING[0]=0.2 NETPERF_ENDING[1]=0.4"
       = Ok timestamps
    /\ List.length throughputs <= List.length timestamps
    /\ List.length [(float_lit "0.2", float_lit "9.5")]
       <= List.length throughputs
    /\ NoDup (Dict.keys [(float_lit "0.2", float_lit "9.5")])
    /\ (forall ts th,
          In (ts, th) [(float_lit "0.2", float_lit "9.5")] ->
          exists i, nth_error timestamps i = Some ts
                    /\ nth_error throughputs i = Some th)
    /\ (forall i ts,
          i < List.length throughputs ->
          nth_error timestamps i = Some ts ->
          In ts (Dict.keys [(float_lit "0.2", float_lit "9.5")])).
Proof.
  apply (@samples_are_pairs
           "NETPERF_INTERIM_RESULT[0]=9.5 NETPERF_ENDING[0]=0.2 NETPERF_ENDING[1]=0.4").
  vm_compute. reflexivity.
Defined.

(** X9.  When the paired timestamps are pairwise distinct, nothing is
    overwritten: the dict is the list of pairs in text order, one
    sample per throughput. *)
Theorem distinct_timestamps_keep_all (raw_stats : string)
  (throughputs timestamps : list pyfloat) :
  throughputs_of raw_stats = Ok throughputs ->
  timestamps_of raw_stats = Ok timestamps ->
  List.length throughputs <= List.length timestamps ->
  NoDup (firstn (List.length throughputs) timestamps) ->
  stats_dict_of raw_stats = Ok (combine timestamps throughputs)
  /\ List.length (combine timestamps throughputs) = List.length throughputs.
Proof.
  intros Hth Hts Hle Hnd. split.
  - rewrite (stats_dict_of_zip _ Hth Hts Hle). f_equal.
    unfold Dict.of_list.
    rewrite (@fold_fresh _ _ _ pyfloat_eqb_spec); [reflexivity|].
    simpl. rewrite combine_keys. exact Hnd.
  - rewrite length_combine. lia.
Qed.

Lemma distinct_timestamps_keep_all_witness :
  stats_dict_of "NETPERF_INTERIM_RESULT[0]=9.5 NETPERF_ENDING[0]=0.2 NETPERF_INTERIM_RESULT[1]=7.25 NETPERF_ENDING[1]=0.4"
  = Ok (combine [float_lit "0.2"; float_lit "0.4"]
                [float_lit "9.5"; float_lit "7.25"])
  /\ List.length (combine [float_lit "0.2"; float_lit "0.4"]
                          [float_lit "9.5"; float_lit "7.25"])
     = List.length [float_lit "9.5"; float_lit "7.25"].
Proof.
  apply (@distinct_timestamps_keep_all
           "NETPERF_INTERIM_RESULT[0]=9.5 NETPERF_ENDING[0]=0.2 NETPERF_INTERIM_RESULT[1]=7.25 NETPERF_ENDING[1]=0.4").
  - vm_compute. reflexivity.
  - vm_compute. reflexivity.
  - simpl. lia.
  - vm_compute. repeat constructor; simpl; intuition discriminate.
Defined.

(* ================================================================== *)
(** ** Parsing marker by marker *)

Lemma greedy_digits_end (fp rest : string) :
  all_digits fp = true -> no_digit_start rest = true ->
  greedy_digits (re_match []) (fp ++ rest) = Some (fp, rest).
Proof.
  intros Hfp Hrest. induction fp as [|c fp IH]; cbn [append greedy_digits].
  - destruct rest as [|c rest]; [reflexivity|]. cbn [no_digit_start] in Hrest.
    apply negb_true_iff in Hrest. cbn [greedy_digits].
    rewrite Hrest. reflexivity.
  - cbn [all_digits] in Hfp. apply andb_prop in Hfp as [Hc Hfp].
    rewrite Hc, (IH Hfp). reflexivity.
Qed.

Lemma re_match_lit (c : ascii) (re : regex) (s : string) :
  re_match (Lit c :: re) (String c s) = consume c (re_match re s).
Proof.
  change (re_match (Lit c :: re) (String c s))
    with (if Ascii.eqb c c then consume c (re_match re s) else None).
  rewrite Ascii.eqb_refl. reflexivity.
Qed.

Lemma re_match_digits_end (ds rest : string) :
  digits ds -> no_digit_start rest = true ->
  re_match [Digits] (ds ++ rest) = Some (ds, rest).
Proof.
  intros [Hne Hds] Hrest. destruct ds as [|d ds]; [contradiction|].
  cbn [all_digits] in Hds. apply andb_prop in Hds as [Hd Hds].
  change (re_match [Digits] (String d ds ++ rest))
    with (if is_digit d
          then consume d (greedy_digits (re_match []) (ds ++ rest))
          else None).
  rewrite Hd, (greedy_digits_end _ _ Hds Hrest). reflexivity.
Qed.

Lemma re_match_digits_lit (ds : string) (c : ascii) (re : regex)
  (s m r : string) :
  digits ds -> is_digit c = false ->
  re_match re s = Some (m, r) ->
  re_match (Digits :: Lit c :: re) (ds ++ String c s)
  = Some (ds ++ String c m, r).
Proof.
  intros [Hne Hds] Hc Hre. destruct ds as [|d ds]; [contradiction|].
  cbn [all_digits] in Hds. apply andb_prop in Hds as [Hd Hds].
  change (re_match (Digits :: Lit c :: re) (String d ds ++ String c s))
    with (if is_digit d
          then consume d (greedy_digits (re_match (Lit c :: re))
                                        (ds ++ String c s))
          else None).
  rewrite Hd.
  rewrite (@greedy_digits_run (re_match (Lit c :: re)) ds c s
             (String c m) r Hds Hc).
  - reflexivity.
  - rewrite re_match_lit, Hre. reflexivity.
Qed.

Lemma unmatched_name_body (re' : regex) (pre body rest : string) :
  no_char "N" body ->
  unmatched (Lit "N" :: re') pre (body ++ rest) ->
  unmatched (Lit "N" :: re') (pre ++ body) rest.
Proof.
  intros Hb H. apply unmatched_append; [exact H|].
  apply unmatched_no_char, Hb.
Qed.

Section FloatMarker.
Variable c0 : ascii.
Variable name' : string.
Hypothesis c0_not_digit : is_digit c0 = false.
Hypothesis c0_not_dot : c0 <> "."%char.
Variables idx ip fp rest : string.
Hypothesis idx_digits : digits idx.
Hypothesis ip_digits : digits ip.
Hypothesis fp_digits : digits fp.
Hypothesis rest_start : no_digit_start rest = true.

Local Abbreviation name := (String c0 name').

(** A marker with a fractional payload is matched where it stands, all
    of it and nothing more. *)
Lemma marker_match_complete :
  re_match (marker_pattern name) (marker_text name idx ip fp ++ rest)
  = Some (marker_text name idx ip fp, rest).
Proof.
  pose proof (@re_match_digits_end fp rest fp_digits rest_start) as H3.
  pose proof (@re_match_digits_lit ip "." [Digits] _ _ _
                ip_digits eq_refl H3) as H2.
  assert (H2' : re_match [Lit "="; Digits; Lit "."; Digits]
                         (String "=" (ip ++ String "." (fp ++ rest)))
                = Some (String "=" (ip ++ String "." fp), rest))
    by (rewrite re_match_lit, H2; reflexivity).
  pose proof (@re_match_digits_lit idx "]" _ _ _ _
                idx_digits eq_refl H2') as H1.
  unfold marker_pattern, marker_text.
  replace ((name ++ "[" ++ idx ++ "]=" ++ ip ++ "." ++ fp) ++ rest)
    with (name ++ String "[" (idx ++ String "]"
            (String "=" (ip ++ String "." (fp ++ rest)))))
    by (rewrite !append_assoc; reflexivity).
  rewrite re_match_lits.
  change (Lit "[" :: Digits :: lits "]=" ++ [Digits; Lit "."; Digits])%list
    with [Lit "["; Digits; Lit "]"; Lit "="; Digits; Lit "."; Digits].
  rewrite re_match_lit, H1. reflexivity.
Qed.

Lemma marker_found :
  findall (marker_pattern name) (marker_text name idx ip fp ++ rest)
  = marker_text name idx ip fp :: findall (marker_pattern name) rest.
Proof.
  unfold findall.
  pose proof marker_match_complete as Hm.
  change (marker_text name idx ip fp ++ rest)
    with (String c0 ((name' ++ "[" ++ idx ++ "]=" ++ ip ++ "." ++ fp) ++ rest))
    in *.
  cbn [findall_from]. rewrite Hm. f_equal.
  change (marker_text name idx ip fp)
    with (String c0 (name' ++ "[" ++ idx ++ "]=" ++ ip ++ "." ++ fp)).
  cbn [String.length]. rewrite Nat.sub_1_r, Nat.pred_succ.
  apply findall_from_skip. left.
  destruct name'; discriminate.
Qed.

Lemma marker_first_value :
  extract_floats (marker_pattern name) (marker_prefix_pattern name)
                 (marker_text name idx ip fp ++ rest)
  = rbind (extract_floats (marker_pattern name) (marker_prefix_pattern name)
                          rest)
          (fun xs => Ok (decimal_value ip fp :: xs)).
Proof.
  destruct idx_digits as [Hi Hid], ip_digits as [Hp Hpd],
           fp_digits as [Hf Hfd].
  unfold extract_floats. rewrite marker_found. cbn [rmap].
  unfold marker_text at 1.
  rewrite marker_payload by assumption.
  rewrite float_of_decimal by assumption. reflexivity.
Qed.

Lemma float_body_no_N : no_char "N" (idx ++ "]=" ++ ip ++ "." ++ fp).
Proof.
  destruct idx_digits as [_ Hid], ip_digits as [_ Hpd],
           fp_digits as [_ Hfd].
  apply no_char_append; [apply all_digits_no_char; auto|].
  repeat (split; [discriminate|]). cbn [append].
  apply no_char_append; [apply all_digits_no_char; auto|].
  split; [discriminate|]. apply all_digits_no_char; auto.
Qed.
End FloatMarker.

Lemma interim_not_a_timestamp (idx ip fp rest : string) :
  digits idx -> digits ip -> digits fp ->
  unmatched timestamp_pattern
            (marker_text "NETPERF_INTERIM_RESULT" idx ip fp) rest.
Proof.
  intros Hi Hp Hf.
  apply (@unmatched_name_body (tl timestamp_pattern)
           "NETPERF_INTERIM_RESULT[" (idx ++ "]=" ++ ip ++ "." ++ fp) rest).
  - apply float_body_no_N; assumption.
  - repeat split; reflexivity.
Qed.

Lemma ending_not_a_throughput (idx ip fp rest : string) :
  digits idx -> digits ip -> digits fp ->
  unmatched throughput_pattern
            (marker_text "NETPERF_ENDING" idx ip fp) rest.
Proof.
  intros Hi Hp Hf.
  apply (@unmatched_name_body (tl throughput_pattern)
           "NETPERF_ENDING[" (idx ++ "]=" ++ ip ++ "." ++ fp) rest).
  - apply float_body_no_N; assumption.
  - repeat split; reflexivity.
Qed.

Lemma extract_floats_unmatched (pat extract : regex) (junk rest : string) :
  unmatched pat junk rest ->
  extract_floats pat extract (junk ++ rest) = extract_floats pat extract rest.
Proof.
  intros H. unfold extract_floats, findall.
  rewrite (findall_unmatched _ _ _ H). reflexivity.
Qed.

Lemma no_N_inert (junk : string) : no_char "N" junk -> inert junk.
Proof.
  intros H rest. split.
  - apply (@unmatched_no_char "N" (tl throughput_pattern)), H.
  - apply (@unmatched_no_char "N" (tl timestamp_pattern)), H.
Qed.

Lemma inert_skipped (junk rest : string) :
  inert junk ->
  throughputs_of (junk ++ rest) = throughputs_of rest
  /\ timestamps_of (junk ++ rest) = timestamps_of rest.
Proof.
  intros H. destruct (H rest) as [Hth Hts].
  split; apply extract_floats_unmatched; assumption.
Qed.

Lemma marker_head_values (idx ip fp rest : string) :
  digits idx -> digits ip -> digits fp ->
  no_digit_start rest = true ->
  (throughputs_of (marker_text "NETPERF_INTERIM_RESULT" idx ip fp ++ rest)
   = rbind (throughputs_of rest) (fun xs => Ok (decimal_value ip fp :: xs))
   /\ timestamps_of (marker_text "NETPERF_INTERIM_RESULT" idx ip fp ++ rest)
      = timestamps_of rest)
  /\ (timestamps_of (marker_text "NETPERF_ENDING" idx ip fp ++ rest)
      = rbind (timestamps_of rest) (fun xs => Ok (decimal_value ip fp :: xs))
      /\ throughputs_of (marker_text "NETPERF_ENDING" idx ip fp ++ rest)
         = throughputs_of rest).
Proof.
  intros Hi Hp Hf Hrest. split; split.
  - apply (@marker_first_value "N" "ETPERF_INTERIM_RESULT"); auto.
    discriminate.
  - apply extract_floats_unmatched, interim_not_a_timestamp; assumption.
  - apply (@marker_first_value "N" "ETPERF_ENDING"); auto. discriminate.
  - apply extract_floats_unmatched, ending_not_a_throughput; assumption.
Qed.

(** X10.  A marker with a [digits.digits] payload at the head of the
    text, not followed by a further digit, contributes exactly one
    value to its own list, the float its payload denotes, and nothing
    to the other list; the rest of the text is parsed as it would be
    on its own.  The bracketed index plays no part. *)
Theorem float_marker_adds_one_value (idx ip fp rest : string) :
  digits idx -> digits ip -> digits fp ->
  no_digit_start rest = true ->
  let interim := marker_text "NETPERF_INTERIM_RESULT" idx ip fp in
  let ending := marker_text "NETPERF_ENDING" idx ip fp in
  (throughputs_of (interim ++ rest)
   = rbind (throughputs_of rest) (fun xs => Ok (decimal_value ip fp :: xs))
   /\ timestamps_of (interim ++ rest) = timestamps_of rest)
  /\ (timestamps_of (ending ++ rest)
      = rbind (timestamps_of rest) (fun xs => Ok (decimal_value ip fp :: xs))
      /\ throughputs_of (ending ++ rest) = throughputs_of rest).
Proof.
  intros Hi Hp Hf Hrest interim ending.
  exact (@marker_head_values idx ip fp rest Hi Hp Hf Hrest).
Qed.

Lemma float_marker_adds_one_value_witness :
  (throughputs_of
     (marker_text "NETPERF_INTERIM_RESULT" "3" "9414" "55" ++ " Mbit")
   = rbind (throughputs_of " Mbit")
           (fun xs => Ok (decimal_value "9414" "55" :: xs))
   /\ timestamps_of
        (marker_text "NETPERF_INTERIM_RESULT" "3" "9414" "55" ++ " Mbit")
      = timestamps_of " Mbit")
  /\ (timestamps_of (marker_text "NETPERF_ENDING" "3" "9414" "55" ++ " Mbit")
      = rbind (timestamps_of " Mbit")
              (fun xs => Ok (decimal_value "9414" "55" :: xs))
      /\ throughputs_of
           (marker_text "NETPERF_ENDING" "3" "9414" "55" ++ " Mbit")
         = throughputs_of " Mbit").
Proof.
  apply (@float_marker_adds_one_value "3" "9414" "55" " Mbit").
  - split; [discriminate|reflexivity].
  - split; [discriminate|reflexivity].
  - split; [discriminate|reflexivity].
  - reflexivity.
Defined.

(** X11.  Text without a capital [N] at the head of the input is
    skipped: no match of either pattern starts in it, and the input
    parses as what follows it. *)
Theorem text_without_N_is_skipped (junk rest : string) :
  no_char "N" junk ->
  throughputs_of (junk ++ rest) = throughputs_of rest
  /\ timestamps_of (junk ++ rest) = timestamps_of rest
  /\ stats_dict_of (junk ++ rest) = stats_dict_of rest.
Proof.
  intros H. destruct (@inert_skipped junk rest (no_N_inert _ H)) as [Hth Hts].
  split; [exact Hth|]. split; [exact Hts|].
  unfold stats_dict_of. rewrite Hth, Hts. reflexivity.
Qed.

Lemma text_without_N_is_skipped_witness :
  throughputs_of ("netperf: 2 retries" ++ "NETPERF_ENDING[0]=0.2")
  = throughputs_of "NETPERF_ENDING[0]=0.2"
  /\ timestamps_of ("netperf: 2 retries" ++ "NETPERF_ENDING[0]=0.2")
     = timestamps_of "NETPERF_ENDING[0]=0.2"
  /\ stats_dict_of ("netperf: 2 retries" ++ "NETPERF_ENDING[0]=0.2")
     = stats_dict_of "NETPERF_ENDING[0]=0.2".
Proof.
  apply (@text_without_N_is_skipped "netperf: 2 retries"
           "NETPERF_ENDING[0]=0.2").
  simpl. repeat split; discriminate.
Defined.

Lemma separator_start (sep rest : string) :
  separator sep -> no_digit_start (sep ++ rest) = true.
Proof.
  intros (Hne & Hs & _). destruct sep; [contradiction|exact Hs].
Qed.

Lemma report_values (sep1 sep2 : string) (r : report) (rest : string) :
  separator sep1 -> separator sep2 -> well_formed r ->
  throughputs_of (report_text sep1 sep2 r ++ rest)
  = rbind (throughputs_of rest) (fun xs => Ok (thr_value r :: xs))
  /\ timestamps_of (report_text sep1 sep2 r ++ rest)
     = rbind (timestamps_of rest) (fun xs => Ok (ts_value r :: xs)).
Proof.
  intros H1 H2 [(Hi & Hp & Hf) (Hi' & Hp' & Hf')].
  unfold report_text. rewrite !append_assoc.
  destruct (@marker_head_values (thr_idx r) (thr_ip r) (thr_fp r)
              (sep1 ++ marker_text "NETPERF_ENDING" (ts_idx r) (ts_ip r)
                                   (ts_fp r) ++ sep2 ++ rest)
              Hi Hp Hf (separator_start _ H1)) as [[Ea Eb] _].
  destruct (@marker_head_values (ts_idx r) (ts_ip r) (ts_fp r)
              (sep2 ++ rest) Hi' Hp' Hf' (separator_start _ H2))
    as [_ [Ec Ed]].
  destruct H1 as (_ & _ & I1). destruct H2 as (_ & _ & I2).
  destruct (@inert_skipped sep1
              (marker_text "NETPERF_ENDING" (ts_idx r) (ts_ip r) (ts_fp r)
                 ++ sep2 ++ rest) I1) as [S1 S1'].
  destruct (@inert_skipped sep2 rest I2) as [S2 S2'].
  split.
  - rewrite Ea, S1, Ed, S2. reflexivity.
  - rewrite Eb, S1', Ec, S2'. reflexivity.
Qed.

Lemma output_values (sep1 sep2 : string) (rs : list report) :
  separator sep1 -> separator sep2 -> Forall well_formed rs ->
  throughputs_of (output_text sep1 sep2 rs) = Ok (map thr_value rs)
  /\ timestamps_of (output_text sep1 sep2 rs) = Ok (map ts_value rs).
Proof.
  intros H1 H2. induction 1 as [|r rs Hr Hrs [IHth IHts]].
  - split; reflexivity.
  - cbn [output_text map].
    destruct (@report_values sep1 sep2 r (output_text sep1 sep2 rs) H1 H2 Hr)
      as [Eth Ets].
    rewrite Eth, Ets, IHth, IHts. split; reflexivity.
Qed.

(** X12.  Round trip: a text made of well-formed reports (a throughput
    marker, a separator, a timestamp marker, a separator) parses to
    exactly the reports' values, in order, and the dict is the one
    obtained by assigning each report's throughput to its timestamp. *)
Theorem well_formed_output_parses (sep1 sep2 : string) (rs : list report) :
  separator sep1 -> separator sep2 -> Forall well_formed rs ->
  throughputs_of (output_text sep1 sep2 rs) = Ok (map thr_value rs)
  /\ timestamps_of (output_text sep1 sep2 rs) = Ok (map ts_value rs)
  /\ stats_dict_of (output_text sep1 sep2 rs)
     = Ok (Dict.of_list pyfloat_eqb
             (map (fun r => (ts_value r, thr_value r)) rs)).
Proof.
  intros H1 H2 Hrs.
  destruct (@output_values sep1 sep2 rs H1 H2 Hrs) as [Hth Hts].
  split; [exact Hth|]. split; [exact Hts|].
  rewrite (stats_dict_of_zip _ Hth Hts) by (rewrite !length_map; lia).
  do 2 f_equal. clear. induction rs as [|r rs IH]; [reflexivity|].
  cbn [map combine]. rewrite IH. reflexivity.
Qed.

Lemma units_and_interval_separator : separator units_and_interval.
Proof.
  split; [discriminate|]. split; [reflexivity|].
  intros rest. split; repeat split; reflexivity.
Qed.

Lemma newline_separator : separator newline.
Proof.
  split; [discriminate|]. split; [reflexivity|].
  apply no_N_inert. simpl. split; [discriminate|trivial].
Qed.

Lemma well_formed_output_parses_witness :
  let rs := [ {| thr_idx := "0"; thr_ip := "9414"; thr_fp := "55";
                 ts_idx := "0"; ts_ip := "1590000000"; ts_fp := "200" |};
              {| thr_idx := "1"; thr_ip := "9398"; thr_fp := "07";
                 ts_idx := "1"; ts_ip := "1590000000"; ts_fp := "400" |} ] in
  throughputs_of (output_text units_and_interval newline rs)
  = Ok (map thr_value rs)
  /\ timestamps_of (output_text units_and_interval newline rs)
     = Ok (map ts_value rs)
  /\ stats_dict_of (output_text units_and_interval newline rs)
     = Ok (Dict.of_list pyfloat_eqb
             (map (fun r => (ts_value r, thr_value r)) rs)).
Proof.
  intros rs.
  apply (@well_formed_output_parses units_and_interval newline rs).
  - exact units_and_interval_separator.
  - exact newline_separator.
  - repeat constructor; try discriminate.
Defined.

(* ================================================================== *)
(** ** Concurrent runs: progress and the final store *)

Section MergeProgress.
Variable Store : Type.
Variable add_result : string -> stats -> Store -> Store.
Variable h : host.
Variable lock : nat.
Variable rqs : list request.
Variable s0 : Store.

Lemma step_other (w w' : world Store) (i j : nat) :
  step add_result w i = Some w' -> j <> i -> threads w' j = threads w j.
Proof.
  unfold step. intros H Hne.
  destruct (todo (threads w i)) as [|e rest]; [discriminate|].
  destruct e as [secs|argv| |l|l|ns d];
    try (inversion H; subst w'; cbn [threads];
         apply (@update_neq (thread Store)); exact Hne).
  - destruct (holder w l); [discriminate|].
    inversion H; subst w'; cbn [threads].
    apply (@update_neq (thread Store)); exact Hne.
  - destruct (holder w l); [|discriminate].
    inversion H; subst w'; cbn [threads].
    apply (@update_neq (thread Store)); exact Hne.
  - destruct (reading (threads w i));
      inversion H; subst w'; cbn [threads];
      apply (@update_neq (thread Store)); exact Hne.
Qed.

Lemma step_needs_work (w w' : world Store) (i : nat) :
  step add_result w i = Some w' -> todo (threads w i) <> [].
Proof.
  unfold step. destruct (todo (threads w i)); [discriminate|].
  intros _. discriminate.
Qed.

(** Threads beyond the last run never have anything to do. *)
Lemma idle_beyond (schedule : list nat) :
  forall w w',
    (forall i, List.length rqs <= i -> todo (threads w i) = []) ->
    run add_result w schedule = Some w' ->
    forall i, List.length rqs <= i -> todo (threads w' i) = [].
Proof.
  induction schedule as [|j schedule IH]; intros w w' Hw Hrun i Hi.
  - inversion Hrun; subst. auto.
  - cbn in Hrun. destruct (step add_result w j) as [w1|] eqn:Hs;
      [|discriminate].
    apply (IH w1 w'); [|exact Hrun|exact Hi].
    intros k Hk. destruct (Nat.eq_dec k j) as [->|Hkj].
    + exfalso. apply (@step_needs_work w w1 j Hs). auto.
    + rewrite (@step_other w w1 j k Hs Hkj). auto.
Qed.

Lemma init_idle_beyond (i : nat) :
  List.length rqs <= i -> todo (threads (init h lock rqs s0) i) = [].
Proof.
  intros Hi. cbn [init threads]. rewrite nth_map_error.
  apply nth_error_None in Hi. rewrite Hi. reflexivity.
Qed.

Lemma some_work_or_none (f : nat -> list event) (n : nat) :
  (forall i, i < n -> f i = []) \/ (exists i, i < n /\ f i <> []).
Proof.
  induction n as [|n [IH|(i & Hi & Hne)]].
  - left. intros i Hi. lia.
  - destruct (f n) as [|e l] eqn:E.
    + left. intros i Hi. destruct (Nat.eq_dec i n) as [->|]; [exact E|].
      apply IH. lia.
    + right. exists n. split; [lia|]. rewrite E. discriminate.
  - right. exists i. split; [lia|exact Hne].
Qed.

(** A thread holding the lock, or with an event that needs no lock,
    can move. *)
Lemma holder_can_move (w : world Store) (order : list nat) (j : nat) :
  phase lock w order j (contrib_of h lock rqs j) ->
  holder w lock = Some j ->
  exists w', step add_result w j = Some w'.
Proof.
  intros Hp Hh. unfold step.
  destruct Hp as [pre _ _ _ _ Hn|ns d _ Htd Hr _ _|ns d _ Htd _ _ _
                 |_ _ _ Hn _]; try contradiction.
  - rewrite Htd. destruct (reading (threads w j)); eauto.
  - rewrite Htd, Hh. eauto.
Qed.

Lemma invariant_progress (w : world Store) (order : list nat) (i : nat) :
  invariant add_result h lock rqs s0 w order ->
  todo (threads w i) <> [] ->
  exists j w', step add_result w j = Some w'.
Proof.
  intros (_ & _ & Hph) Hne.
  destruct (Hph i) as [pre Hq Htd Hr Hn Hhi|ns d Hc Htd Hr Hhi Hn
                      |ns d Hc Htd Hr Hhi Hin|Hc Htd Hr Hhi Hin].
  - destruct pre as [|e pre].
    + destruct (contrib_of h lock rqs i) as [[ns d]|] eqn:Hc;
        [|cbn in Htd; congruence].
      destruct (holder w lock) as [j|] eqn:Hh.
      * exists j. apply (@holder_can_move w order j (Hph j) Hh).
      * exists i. unfold step. rewrite Htd. cbn. rewrite Hh. eauto.
    + exists i. unfold step. rewrite Htd. cbn [app].
      inversion Hq as [|e' pre' He _]; subst.
      destruct e; cbn in He; try contradiction; eauto.
  - exists i. apply (@holder_can_move w order i (Hph i) Hhi).
  - exists i. apply (@holder_can_move w order i (Hph i) Hhi).
  - contradiction.
Qed.

Lemma invariant_lock_free (w : world Store) (order : list nat) :
  invariant add_result h lock rqs s0 w order ->
  (forall i, todo (threads w i) = []) ->
  holder w lock = None.
Proof.
  intros (_ & _ & Hph) Hdone.
  destruct (holder w lock) as [j|] eqn:Hh; [|reflexivity].
  destruct (Hph j) as [pre _ _ _ _ Hn|ns d _ Htd _ _ _|ns d _ Htd _ _ _
                      |_ _ _ Hn _]; try contradiction;
    rewrite Hdone in Htd; discriminate.
Qed.

Lemma invariant_order_complete (w : world Store) (order : list nat) :
  invariant add_result h lock rqs s0 w order ->
  (forall i, todo (threads w i) = []) ->
  forall i, In i order
            <-> In i (filter (contributes h lock rqs)
                             (seq 0 (List.length rqs))).
Proof.
  intros (_ & _ & Hph) Hdone i.
  rewrite filter_In, in_seq. unfold contributes.
  destruct (Hph i) as [pre Hq Htd _ Hn _|ns d Hc Htd _ _ Hn
                      |ns d Hc Htd _ _ Hin|Hc Htd _ _ Hin];
    rewrite Hdone in Htd.
  - destruct (contrib_of h lock rqs i) as [[ns d]|].
    + destruct pre; discriminate.
    + split; [contradiction|intros [_ H]; discriminate].
  - discriminate.
  - discriminate.
  - split; [|intros _; exact Hin]. intros _.
    destruct (contrib_of h lock rqs i) as [c|] eqn:Ec; [|contradiction].
    split; [|reflexivity]. split; [lia|]. cbn.
    unfold contrib_of in Ec.
    destruct (nth_error rqs i) eqn:En; [|discriminate].
    apply nth_error_Some. congruence.
Qed.
End MergeProgress.

(** X13.  The shared lock never blocks the experiment: whatever the
    interleaving so far, either every run has finished or some run can
    make its next move. *)
Theorem merge_never_deadlocks
  (Store : Type) (add_result : string -> stats -> Store -> Store)
  (h : host) (lock : nat) (rqs : list request) (s0 : Store)
  (schedule : list nat) (w : world Store) :
  run add_result (init h lock rqs s0) schedule = Some w ->
  (forall i, todo (threads w i) = [])
  \/ (exists i w', step add_result w i = Some w').
Proof.
  intros Hrun.
  destruct (@invariant_run Store add_result h lock rqs s0 schedule _ _ []
              (invariant_init add_result h lock rqs s0) Hrun)
    as (order & Hinv).
  pose proof (@idle_beyond Store add_result rqs schedule _ _
                (@init_idle_beyond Store h lock rqs s0) Hrun) as Hidle.
  destruct (some_work_or_none (fun i => todo (threads w i))
                              (List.length rqs))
    as [Hnone|(i & _ & Hne)].
  - left. intros i. destruct (Nat.lt_ge_cases i (List.length rqs)); auto.
  - right. exact (@invariant_progress Store add_result h lock rqs s0
                    w order i Hinv Hne).
Qed.

Lemma merge_never_deadlocks_witness :
  exists w,
    run log_call (init example_host 1 example_requests [])
        [0; 1; 0; 0; 1] = Some w
    /\ ((forall i, todo (threads w i) = [])
        \/ (exists i w', step log_call w i = Some w')).
Proof.
  assert (Hsome : exists w,
             run log_call (init example_host 1 example_requests [])
                 [0; 1; 0; 0; 1] = Some w).
  { vm_compute. eexists. reflexivity. }
  destruct Hsome as [w Hrun]. exists w. split; [exact Hrun|].
  exact (@merge_never_deadlocks _ log_call example_host 1
           example_requests [] [0; 1; 0; 0; 1] w Hrun).
Defined.

(** X14.  When every run has finished, the lock is free and the store
    is the one obtained by merging the samples of every run that had
    samples to merge, each exactly once, in some order. *)
Theorem all_runs_merged_at_end
  (Store : Type) (add_result : string -> stats -> Store -> Store)
  (h : host) (lock : nat) (rqs : list request) (s0 : Store)
  (schedule : list nat) (w : world Store) :
  run add_result (init h lock rqs s0) schedule = Some w ->
  (forall i, todo (threads w i) = []) ->
  holder w lock = None
  /\ exists order,
       Permutation order
         (filter (contributes h lock rqs) (seq 0 (List.length rqs)))
       /\ store w = merged_in_order add_result h lock rqs s0 order.
Proof.
  intros Hrun Hdone.
  destruct (@invariant_run Store add_result h lock rqs s0 schedule _ _ []
              (invariant_init add_result h lock rqs s0) Hrun)
    as (order & Hinv).
  split; [exact (@invariant_lock_free Store add_result h lock rqs s0
                   w order Hinv Hdone)|].
  exists order. split; [|apply Hinv].
  apply NoDup_Permutation.
  - apply Hinv.
  - apply NoDup_filter, seq_NoDup.
  - exact (@invariant_order_complete Store add_result h lock rqs s0
             w order Hinv Hdone).
Qed.

Lemma example_schedule_finishes :
  exists w,
    run log_call (init example_host 1 example_requests []) example_schedule
    = Some w
    /\ todo (threads w 0) = [] /\ todo (threads w 1) = [].
Proof. vm_compute. eexists. repeat split. Qed.

Lemma all_runs_merged_at_end_witness :
  exists w,
    run log_call (init example_host 1 example_requests []) example_schedule
    = Some w
    /\ holder w 1 = None
    /\ exists order,
         Permutation order
           (filter (contributes example_host 1 example_requests)
                   (seq 0 (List.length example_requests)))
         /\ store w = merged_in_order log_call example_host 1
                                      example_requests [] order.
Proof.
  destruct example_schedule_finishes as (w & Hrun & H0 & H1).
  exists w. split; [exact Hrun|].
  apply (@all_runs_merged_at_end _ log_call example_host 1 example_requests
           [] example_schedule w Hrun).
  intros i.
  destruct i as [|[|i]]; [exact H0|exact H1|].
  apply (@idle_beyond _ log_call example_requests example_schedule _ _
           (@init_idle_beyond _ example_host 1 example_requests []) Hrun).
  simpl. lia.
Defined.

(** X15.  When the child's output has more throughput markers than
    timestamp markers (an interim report cut short, say), the whole
    run is lost: [run_netperf], started with a delay [time.sleep]
    accepts, ends in [IndexError] after the child has exited, without
    taking the lock or adding any sample. *)
Theorem unpaired_throughput_loses_the_run
  (h : host) (ns_name destination_ip : string) (start_time : Z) (lock : nat)
  (run_time : Z) (kwargs : Dict.t string string) (cmd out : string) :
  build_cmd ns_name destination_ip run_time kwargs = Ok cmd ->
  (0 <= start_time <= SLEEP_MAX)%Z ->
  h (split cmd) = Some out ->
  List.length (findall timestamp_pattern out)
  < List.length (findall throughput_pattern out) ->
  run_netperf h ns_name destination_ip start_time lock run_time kwargs
  = ((delay_events start_time ++ [Popen (split cmd); Communicate])%list,
     Raise IndexError).
Proof.
  intros Hb Hs Hh Hlt. rewrite (@run_netperf_eq h _ _ _ lock _ _ _ Hb Hs).
  unfold after_launch. rewrite Hh, parse_stats_eq.
  rewrite (stats_dict_of_raises _ Hlt). reflexivity.
Qed.

Lemma unpaired_throughput_loses_the_run_witness :
  run_netperf
    (fun _ => Some "NETPERF_INTERIM_RESULT[0]=9.5 NETPERF_ENDING[0]=0.2 NETPERF_INTERIM_RESULT[1]=7.25")
    "h1" "10.0.0.2" 0 4 10 [("testname", "UDP_STREAM")]
  = ((delay_events 0
        ++ [Popen (split "ip netns exec h1 netperf -P 0 -4 -t UDP_STREAM -F /dev/urandom -l 10 -D -0.2 -H 10.0.0.2 -- -R 1 -k THROUGHPUT");
            Communicate])%list,
     Raise IndexError).
Proof.
  apply (@unpaired_throughput_loses_the_run
           (fun _ => Some "NETPERF_INTERIM_RESULT[0]=9.5 NETPERF_ENDING[0]=0.2 NETPERF_INTERIM_RESULT[1]=7.25")
           "h1" "10.0.0.2" 0%Z 4 10%Z [("testname", "UDP_STREAM")]
           "ip netns exec h1 netperf -P 0 -4 -t UDP_STREAM -F /dev/urandom -l 10 -D -0.2 -H 10.0.0.2 -- -R 1 -k THROUGHPUT"
           "NETPERF_INTERIM_RESULT[0]=9.5 NETPERF_ENDING[0]=0.2 NETPERF_INTERIM_RESULT[1]=7.25").
  - reflexivity.
  - unfold SLEEP_MAX. lia.
  - reflexivity.
  - vm_compute. lia.
Defined.
